(** * LVK Chatbot: the AIML response engine ([nlp-engine/aimlengine.cpp])

    A shallow embedding of [Lvk::Nlp::AimlEngine] and of the helpers of its
    anonymous namespace, followed by the properties of the engine that the
    design document states.

    Conventions.
    - A C++ [long] is a 64-bit two's complement integer, an [int] a 32-bit
      one; both are values of [Z] and every conversion writes its
      wrap-around out ([to_long], [to_int], [to_ulong]).
    - A [QString] is a [string]; a [QStringList] a [list string].
    - [QHash]/[QMap] keyed by strings are [gmap string _].
    - Member functions take the engine state and return the new one. *)

From Stdlib Require Import ZArith Lia Ascii DecimalString.
From stdpp Require Import base option list strings gmap.

Local Open Scope Z_scope.

(** ** Machine integers *)

Definition to_long (z : Z) : Z := (z + 2 ^ 63) mod 2 ^ 64 - 2 ^ 63.
Definition to_ulong (z : Z) : Z := z mod 2 ^ 64.
Definition to_int (z : Z) : Z := (z + 2 ^ 31) mod 2 ^ 32 - 2 ^ 31.

(** [Lvk::Nlp::RuleId] is a typedef of nlp-engine/rule.h, which is not part
    of the sources at hand.  The comment above [getCategoryId] assumes
    8-byte longs and 52 bits of rule id, so the typedef is a 64-bit integer;
    whether it is signed is left as a parameter of the development. *)
Inductive RuleIdType : Set := RuleIdSigned | RuleIdUnsigned.

Definition to_RuleId (t : RuleIdType) (z : Z) : Z :=
  match t with
  | RuleIdSigned => to_long z
  | RuleIdUnsigned => to_ulong z
  end.

(** ** Helpers of the anonymous namespace *)

Definition INPUT_NUMBER_BITS : Z := 12.
Definition INPUT_NUMBER_MASK : Z := 0xfff.

(** [((long)ruleId << INPUT_NUMBER_BITS) | (long)inputNumber] *)
Definition getCategoryId (ruleId inputNumber : Z) : Z :=
  Z.lor (to_long (Z.shiftl (to_long ruleId) INPUT_NUMBER_BITS)) inputNumber.

(** [categoryId >> INPUT_NUMBER_BITS], converted to [RuleId] *)
Definition getRuleId (t : RuleIdType) (categoryId : Z) : Z :=
  to_RuleId t (Z.shiftr categoryId INPUT_NUMBER_BITS).

(** [categoryId & INPUT_NUMBER_MASK], converted to [int] *)
Definition getInputNumber (categoryId : Z) : Z :=
  to_int (Z.land categoryId INPUT_NUMBER_MASK).

(** [Nlp::Engine::MatchList] is a [QList<QPair<RuleId, int> >]. *)
Definition MatchList : Type := list (Z * Z).

(** [convert]: the match list is cleared, and the last category id, when
    there is one, is unpacked into it. *)
Definition convert (t : RuleIdType) (categoriesId : list Z) : MatchList :=
  match last categoriesId with
  | Some catId => [(getRuleId t catId, getInputNumber catId)]
  | None => []
  end.

(** ** [QString] operations used by the engine *)

Local Open Scope string_scope.

(** The double quote character, and the one-character string holding it. *)
Definition dquote_char : ascii :=
  Ascii.Ascii false true false false false true false false.
Definition dquote : string := String dquote_char EmptyString.

(** [QString::remove(QChar)] *)
Fixpoint qremove (c : ascii) (s : string) : string :=
  match s with
  | EmptyString => EmptyString
  | String a s' =>
      if Ascii.eqb a c then qremove c s' else String a (qremove c s')
  end.

(** [QString::replace(QChar, const QString &)] *)
Fixpoint qreplace (c : ascii) (by_ : string) (s : string) : string :=
  match s with
  | EmptyString => EmptyString
  | String a s' =>
      if Ascii.eqb a c then by_ +:+ qreplace c by_ s'
      else String a (qreplace c by_ s')
  end.

(** [QChar::isSpace] on the ASCII range: tab, line feed, vertical tab, form
    feed, carriage return and space. *)
Definition isSpace (c : ascii) : bool :=
  let n := Ascii.N_of_ascii c in
  ((9 <=? n) && (n <=? 13) || (n =? 32))%N.

Fixpoint trim_left (s : string) : string :=
  match s with
  | EmptyString => EmptyString
  | String a s' => if isSpace a then trim_left s' else s
  end.

Fixpoint trim_right (s : string) : string :=
  match s with
  | EmptyString => EmptyString
  | String a s' =>
      match trim_right s' with
      | EmptyString => if isSpace a then EmptyString else String a EmptyString
      | r => String a r
      end
  end.

(** [QString::trimmed] *)
Definition trimmed (s : string) : string := trim_right (trim_left s).

(** [QString::number(long)]: the decimal numeral, with a minus sign for a
    negative number. *)
Definition qnumber (n : Z) : string := NilZero.string_of_int (Z.to_int n).

(** [QString::isEmpty] *)
Definition isEmpty (s : string) : bool :=
  match s with EmptyString => true | _ => false end.

Definition concat_strings (l : list string) : string :=
  fold_right String.append "" l.

(** ** Rules *)

(** Modelled from the spec: the declaration of [Lvk::Nlp::Rule]
    (nlp-engine/rule.h) is not part of the sources.  The fields are those of
    the rule of the design document that the engine reads, through the
    accessors [id()], [input()], [output()], [target()] and [topic()]. *)
Record Rule : Type := mkRule {
  rule_id : Z;
  rule_input : list string;
  rule_output : list string;
  rule_target : list string;
  rule_topic : string
}.

Definition RuleList : Type := list Rule.

Definition ANY_USER : string := "".

(** ** The pattern backend *)

(** [AIMLParser] (third-party/ProgramQ) is the pattern backend.  The engine
    constructs one from an AIML document, pushes the topic of the current
    partner into it, asks it for a response and reads the topic back; the
    call of [getResponse] also fills the list of the ids of the categories
    that fired.  The parser objects live behind shared pointers and are
    updated in place, hence the parser returned by [AIMLParser_getResponse]. *)
Class AimlBackend : Type := {
  AIMLParser : Type;
  AIMLParser_new : string -> AIMLParser;
  AIMLParser_setTopic : string -> AIMLParser -> AIMLParser;
  AIMLParser_topic : AIMLParser -> string;
  AIMLParser_getResponse : string -> AIMLParser -> string * list Z * AIMLParser
}.

(** ** Properties ([QVariant]) *)

(** The kinds of [QVariant] that callers pass to [setProperty]: an invalid
    variant, a boolean and an integer, with [QVariant::toBool]. *)
Inductive QVariant : Type :=
| QInvalid : QVariant
| QBool : bool -> QVariant
| QInt : Z -> QVariant.

Definition toBool (v : QVariant) : bool :=
  match v with
  | QInvalid => false
  | QBool b => b
  | QInt n => negb (n =? 0)%Z
  end.

(** Modelled from the spec: nlp-engine/nlpproperties.h, which defines the
    macro [NLP_PROP_PREFER_CUR_TOPIC], is not part of the sources; the
    design document names the property prefer-current-topic. *)
Definition NLP_PROP_PREFER_CUR_TOPIC : string := "prefer-current-topic".

(** Modelled from the spec: nlp-engine/nullsanitizer.h and nulllemmatizer.h
    are not part of the sources; the design document describes the default
    collaborators as no-op transformations. *)
Definition NullSanitizer (s : string) : string := s.
Definition NullLemmatizer (s : string) : string := s.

(** One call of the backend, as the engine sees it: the parser called, the
    topic pushed into it, the input, and what came back. *)
Record BackendCall : Type := mkBackendCall {
  call_parser : string;
  call_topic : string;
  call_input : string;
  call_response : string;
  call_categories : list Z;
  call_topic_after : string
}.

(** ** The engine *)

Section Engine.
Variable rid : RuleIdType.
Context {backend : AimlBackend}.

(** The members of [Lvk::Nlp::AimlEngine].  The log file and the mutex are
    left out.  [ghost_calls] is not a member of the class: it records,
    latest first, the calls of the backend, so that one can state which
    partitions a call of the engine consults and what they answered. *)
Record AimlEngine : Type := mkAimlEngine {
  m_preSanitizer : string -> string;
  m_postSanitizer : string -> string;
  m_lemmatizer : string -> string;
  m_rules : RuleList;
  m_parsers : gmap string AIMLParser;
  m_topics : gmap string string;
  m_dirty : bool;
  m_setTopics : bool;
  ghost_calls : list BackendCall
}.

Definition with_rules (rules : RuleList) (e : AimlEngine) : AimlEngine :=
  mkAimlEngine (m_preSanitizer e) (m_postSanitizer e) (m_lemmatizer e) rules
    (m_parsers e) (m_topics e) (m_dirty e) (m_setTopics e) (ghost_calls e).

Definition with_parsers (ps : gmap string AIMLParser) (e : AimlEngine)
  : AimlEngine :=
  mkAimlEngine (m_preSanitizer e) (m_postSanitizer e) (m_lemmatizer e)
    (m_rules e) ps (m_topics e) (m_dirty e) (m_setTopics e) (ghost_calls e).

Definition with_topics (ts : gmap string string) (e : AimlEngine)
  : AimlEngine :=
  mkAimlEngine (m_preSanitizer e) (m_postSanitizer e) (m_lemmatizer e)
    (m_rules e) (m_parsers e) ts (m_dirty e) (m_setTopics e) (ghost_calls e).

Definition with_dirty (d : bool) (e : AimlEngine) : AimlEngine :=
  mkAimlEngine (m_preSanitizer e) (m_postSanitizer e) (m_lemmatizer e)
    (m_rules e) (m_parsers e) (m_topics e) d (m_setTopics e) (ghost_calls e).

Definition with_setTopics (b : bool) (e : AimlEngine) : AimlEngine :=
  mkAimlEngine (m_preSanitizer e) (m_postSanitizer e) (m_lemmatizer e)
    (m_rules e) (m_parsers e) (m_topics e) (m_dirty e) b (ghost_calls e).

Definition with_calls (q : list BackendCall) (e : AimlEngine)
  : AimlEngine :=
  mkAimlEngine (m_preSanitizer e) (m_postSanitizer e) (m_lemmatizer e)
    (m_rules e) (m_parsers e) (m_topics e) (m_dirty e) (m_setTopics e) q.

(** The constructor of [AimlEngine] that takes a pre-sanitizer, a
    lemmatizer and a post-sanitizer; the other two constructors pass the
    null collaborators. *)
Definition AimlEngine_new3 (preSanitizer lemmatizer postSanitizer
                            : string -> string) : AimlEngine :=
  mkAimlEngine preSanitizer postSanitizer lemmatizer [] ∅ ∅ false false [].

Definition AimlEngine_new1 (sanitizer : string -> string) : AimlEngine :=
  AimlEngine_new3 sanitizer NullLemmatizer NullSanitizer.

Definition AimlEngine_new : AimlEngine :=
  AimlEngine_new3 NullSanitizer NullLemmatizer NullSanitizer.

(** [AimlEngine::rules] *)
Definition rules (e : AimlEngine) : RuleList := m_rules e.

(** [AimlEngine::setRules] *)
Definition setRules (rules : RuleList) (e : AimlEngine) : AimlEngine :=
  with_dirty true (with_rules rules e).

(** [AimlEngine::normalize(QString &)] *)
Definition normalize (e : AimlEngine) (input : string) : string :=
  m_postSanitizer e (m_lemmatizer e (m_preSanitizer e input)).

(** [AimlEngine::escape] *)
Definition escape (str : string) : string := qreplace "&" "&amp;" str.

(** [AimlEngine::buildAimlRandOutput] *)
Definition buildAimlRandOutput (output : list string) : string :=
  match output with
  | [] => ""
  | [o] => o
  | _ =>
      "<random>"
      +:+ fold_left (fun aiml o => aiml +:+ "<li>" +:+ o +:+ "</li>") output ""
      +:+ "</random>"
  end.

(** The category string that [buildAiml(QString &, const Rule &)] builds
    for the input of index [i]: the four arguments of [QString::arg] are
    substituted in one pass, which is a concatenation. *)
Definition buildCategory (e : AimlEngine) (rule : Rule) (i : Z)
                         (input_i : string) : string :=
  let catId := qnumber (getCategoryId (rule_id rule) i) in
  let input := escape (normalize e (trimmed input_i)) in
  let randOuput := escape (buildAimlRandOutput (rule_output rule)) in
  let topic := escape (qremove dquote_char (rule_topic rule)) in
  "<category>"
  +:+ "<id>" +:+ catId +:+ "</id>"
  +:+ "<pattern>" +:+ input +:+ "</pattern>"
  +:+ "<template>"
  +:+ "<think><set name=" +:+ dquote +:+ "topic" +:+ dquote +:+ ">"
  +:+ topic +:+ "</set></think>"
  +:+ randOuput
  +:+ "</template>"
  +:+ "</category>".

(** What one turn of the loop of [buildAiml(QString &, const Rule &)]
    appends to the document. *)
Definition buildEntry (e : AimlEngine) (rule : Rule) (i : Z)
                      (input_i : string) : string :=
  let topic := escape (qremove dquote_char (rule_topic rule)) in
  let cat := buildCategory e rule i input_i in
  if m_setTopics e then
    ("<topic name=" +:+ dquote +:+ topic +:+ dquote +:+ ">" +:+ cat
     +:+ "</topic>")
    +:+ ("<topic name=" +:+ dquote +:+ dquote +:+ ">" +:+ cat +:+ "</topic>")
  else cat.

(** The loop of [buildAiml(QString &, const Rule &)], from index [i] on;
    [inputs] are the inputs that remain.  The index is bounded by the size
    of a [QStringList], so it does not overflow. *)
Fixpoint buildAimlRule_from (e : AimlEngine) (rule : Rule) (i : Z)
                            (inputs : list string) (aiml : string) : string :=
  match inputs with
  | [] => aiml
  | input_i :: rest =>
      buildAimlRule_from e rule (i + 1) rest
        (aiml +:+ buildEntry e rule i input_i)
  end.

(** [AimlEngine::buildAiml(QString &aiml, const Rule &rule)] *)
Definition buildAimlRule (e : AimlEngine) (aiml : string) (rule : Rule)
  : string :=
  buildAimlRule_from e rule 0 (rule_input rule) aiml.

(** The condition under which [buildAiml(QString &, const QString &)]
    takes a rule into the document for [target]. *)
Definition selectsRule (target : string) (rule : Rule) : bool :=
  (bool_decide (target = ANY_USER) && bool_decide (rule_target rule = []))
  || bool_decide (target ∈ rule_target rule).

Fixpoint buildAimlRules (e : AimlEngine) (target : string)
                        (rules : RuleList) (aiml : string) : string :=
  match rules with
  | [] => aiml
  | rule :: rest =>
      buildAimlRules e target rest
        (if selectsRule target rule then buildAimlRule e aiml rule else aiml)
  end.

Definition aimlHeader : string :=
  "<?xml version=" +:+ dquote +:+ "1.0" +:+ dquote
  +:+ " encoding=" +:+ dquote +:+ "UTF-8" +:+ dquote +:+ " ?>"
  +:+ "<aiml>".

(** [AimlEngine::buildAiml(QString &aiml, const QString &target)]: the
    previous content of [aiml] is overwritten. *)
Definition buildAiml (e : AimlEngine) (target : string) : string :=
  buildAimlRules e target (m_rules e) aimlHeader +:+ "</aiml>".

(** The inner [foreach] of [refreshAiml]: a parser is built for each
    target that has none yet. *)
Fixpoint refreshTargets (e : AimlEngine) (targets : list string)
                        (parsers : gmap string AIMLParser)
  : gmap string AIMLParser :=
  match targets with
  | [] => parsers
  | target :: rest =>
      refreshTargets e rest
        (match parsers !! target with
         | Some _ => parsers
         | None => <[target := AIMLParser_new (buildAiml e target)]> parsers
         end)
  end.

(** The outer [foreach] of [refreshAiml]. *)
Fixpoint refreshRules (e : AimlEngine) (rules : RuleList)
                      (parsers : gmap string AIMLParser)
  : gmap string AIMLParser :=
  match rules with
  | [] => parsers
  | rule :: rest =>
      refreshRules e rest (refreshTargets e (rule_target rule) parsers)
  end.

(** [AimlEngine::refreshAiml] *)
Definition refreshAiml (e : AimlEngine) : AimlEngine :=
  let parsers : gmap string AIMLParser :=
    <[ANY_USER := AIMLParser_new (buildAiml e ANY_USER)]> ∅ in
  with_parsers (refreshRules e (m_rules e) parsers) e.

(** [m_topics[target]] read as an rvalue: the empty string when the
    partner has no entry. *)
Definition topicOf (e : AimlEngine) (target : string) : string :=
  default "" (m_topics e !! target).

(** [AimlEngine::getAllResponsesWithParser].  The result holds the
    responses, the match list (the reference parameter [matches]) and the
    engine afterwards. *)
Definition getAllResponsesWithParser (normInput target : string)
    (matches : MatchList) (parserName : string) (e : AimlEngine)
  : list string * MatchList * AimlEngine :=
  match m_parsers e !! parserName with
  | Some it =>
      let topic := topicOf e target in
      let '(response, categoriesId, it') :=
        AIMLParser_getResponse normInput (AIMLParser_setTopic topic it) in
      let call :=
        mkBackendCall parserName topic normInput response categoriesId
          (AIMLParser_topic it') in
      let e' :=
        with_calls (call :: ghost_calls e)
          (with_topics (<[target := AIMLParser_topic it']> (m_topics e))
             (with_parsers (<[parserName := it']> (m_parsers e)) e)) in
      let categoriesId := if isEmpty response then [] else categoriesId in
      if negb (String.eqb response "Internal Error!")
         && (0 <? length categoriesId)%nat
      then ([response], convert rid categoriesId, e')
      else ([], matches, e')
  | None => ([], matches, e)
  end.

(** [AimlEngine::_getAllResponses] *)
Definition _getAllResponses (input target : string) (matches : MatchList)
                            (e : AimlEngine)
  : list string * MatchList * AimlEngine :=
  let e := if m_dirty e then with_dirty false (refreshAiml e) else e in
  let normInput := qremove "&" (normalize e input) in
  let '(responses, matches, e) :=
    getAllResponsesWithParser normInput target matches target e in
  if bool_decide (responses = []) && negb (String.eqb target ANY_USER)
  then getAllResponsesWithParser normInput target matches ANY_USER e
  else (responses, matches, e).

(** [AimlEngine::getAllResponses], with and without a target. *)
Definition getAllResponses (input target : string) (matches : MatchList)
                           (e : AimlEngine)
  : list string * MatchList * AimlEngine :=
  _getAllResponses input target matches e.

Definition getAllResponsesAny (input : string) (matches : MatchList)
                              (e : AimlEngine)
  : list string * MatchList * AimlEngine :=
  _getAllResponses input ANY_USER matches e.

(** [AimlEngine::getResponse(input, target, matches)].  The incoming
    [matches] is cleared, so it is no parameter here.  The result is [None]
    when [assert(!responses.empty())] fails. *)
Definition getResponse (input target : string) (e : AimlEngine)
  : option (string * MatchList * AimlEngine) :=
  let matches : MatchList := [] in
  let '(responses, allMatches, e') := getAllResponses input target [] e in
  match allMatches with
  | m :: _ =>
      match responses with
      | r :: _ => Some (r, (matches ++ [m])%list, e')
      | [] => None
      end
  | [] => Some ("", matches, e')
  end.

(** [AimlEngine::getResponse(input, matches)] *)
Definition getResponseAny (input : string) (e : AimlEngine)
  : option (string * MatchList * AimlEngine) :=
  getResponse input ANY_USER e.

(** [setPreSanitizer], [setLemmatizer] and [setPostSanitizer]: a null
    pointer ([None]) installs the null collaborator. *)
Definition setPreSanitizer (sanitizer : option (string -> string))
                           (e : AimlEngine) : AimlEngine :=
  mkAimlEngine (default NullSanitizer sanitizer) (m_postSanitizer e)
    (m_lemmatizer e) (m_rules e) (m_parsers e) (m_topics e) true
    (m_setTopics e) (ghost_calls e).

Definition setLemmatizer (lemmatizer : option (string -> string))
                         (e : AimlEngine) : AimlEngine :=
  mkAimlEngine (m_preSanitizer e) (m_postSanitizer e)
    (default NullLemmatizer lemmatizer) (m_rules e) (m_parsers e)
    (m_topics e) true (m_setTopics e) (ghost_calls e).

Definition setPostSanitizer (sanitizer : option (string -> string))
                            (e : AimlEngine) : AimlEngine :=
  mkAimlEngine (m_preSanitizer e) (default NullSanitizer sanitizer)
    (m_lemmatizer e) (m_rules e) (m_parsers e) (m_topics e) true
    (m_setTopics e) (ghost_calls e).

(** [AimlEngine::property] *)
Definition property (name : string) (e : AimlEngine) : QVariant :=
  if String.eqb name NLP_PROP_PREFER_CUR_TOPIC then QBool (m_setTopics e)
  else QInvalid.

(** [AimlEngine::setProperty] *)
Definition setProperty (name : string) (value : QVariant) (e : AimlEngine)
  : AimlEngine :=
  if String.eqb name NLP_PROP_PREFER_CUR_TOPIC then
    let e :=
      if Bool.eqb (toBool value) true && negb (m_setTopics e)
      then with_dirty true (with_setTopics true e) else e in
    if Bool.eqb (toBool value) false && m_setTopics e
    then with_dirty true (with_setTopics false e) else e
  else e.

(** [AimlEngine::clear] *)
Definition clear (e : AimlEngine) : AimlEngine :=
  with_topics ∅ (with_parsers ∅ (with_rules [] (with_dirty true e))).

(** *** The documents as lists of entries *)

(** What [buildAiml(QString &, const Rule &)] appends for a rule: one
    entry for each input, under its index. *)
Definition ruleEntries (e : AimlEngine) (rule : Rule) : string :=
  concat_strings
    (imap (fun k input_k => buildEntry e rule (Z.of_nat k) input_k)
       (rule_input rule)).

(** The outputs and match lists of successive calls of [getResponse], each
    given by its input and its target. *)
Fixpoint getResponse_seq (calls : list (string * string)) (e : AimlEngine)
  : list (option (string * MatchList)) :=
  match calls with
  | [] => []
  | (input, target) :: rest =>
      match getResponse input target e with
      | Some (out, matches, e') => Some (out, matches) :: getResponse_seq rest e'
      | None => [None]
      end
  end.

(** Two engines with the same collaborators, tracked topics and topic mode;
    and two engines with the same members altogether (the record of the
    backend calls is no member). *)
Definition sameSetup (e1 e2 : AimlEngine) : Prop :=
  m_preSanitizer e1 = m_preSanitizer e2
  /\ m_postSanitizer e1 = m_postSanitizer e2
  /\ m_lemmatizer e1 = m_lemmatizer e2
  /\ m_topics e1 = m_topics e2
  /\ m_setTopics e1 = m_setTopics e2.

Definition sameMembers (e1 e2 : AimlEngine) : Prop :=
  sameSetup e1 e2
  /\ m_rules e1 = m_rules e2
  /\ m_parsers e1 = m_parsers e2
  /\ m_dirty e1 = m_dirty e2.

(** *** Observations on a call *)

(** The engine once the lazy rebuild at the head of [_getAllResponses] is
    done, and the input as the backend receives it. *)
Definition prepared (e : AimlEngine) : AimlEngine :=
  if m_dirty e then with_dirty false (refreshAiml e) else e.

Definition normInputOf (e : AimlEngine) (input : string) : string :=
  qremove "&" (normalize e input).

(** The record of the call that [getAllResponsesWithParser] makes on the
    parser [it], and that parser after the call. *)
Definition backendCall (normInput target parserName : string)
                       (e : AimlEngine) (it : AIMLParser) : BackendCall :=
  let topic := topicOf e target in
  let res := AIMLParser_getResponse normInput (AIMLParser_setTopic topic it) in
  mkBackendCall parserName topic normInput res.1.1 res.1.2
    (AIMLParser_topic res.2).

Definition parserAfter (normInput target : string) (e : AimlEngine)
                       (it : AIMLParser) : AIMLParser :=
  (AIMLParser_getResponse normInput
     (AIMLParser_setTopic (topicOf e target) it)).2.

(** The engine after the call of the parser [parserName] on behalf of
    [target]: the three assignments of [getAllResponsesWithParser]. *)
Definition afterCall (normInput target parserName : string)
                     (e : AimlEngine) (it : AIMLParser) : AimlEngine :=
  let c := backendCall normInput target parserName e it in
  with_calls (c :: ghost_calls e)
    (with_topics (<[target := call_topic_after c]> (m_topics e))
       (with_parsers
          (<[parserName := parserAfter normInput target e it]> (m_parsers e))
          e)).

(** The backend calls that one [getResponse] makes, latest first. *)
Definition newCalls (input target : string) (e : AimlEngine)
  : list BackendCall :=
  let e' := (_getAllResponses input target [] e).2 in
  take (length (ghost_calls e') - length (ghost_calls e)) (ghost_calls e').

(** The outputs and match lists of [n] successive calls of [getResponse]
    with the same arguments; [None] stands for a failed assertion, after
    which nothing runs. *)
Fixpoint getResponse_n (n : nat) (input target : string) (e : AimlEngine)
  : list (option (string * MatchList)) :=
  match n with
  | O => []
  | S n' =>
      match getResponse input target e with
      | Some (out, matches, e') =>
          Some (out, matches) :: getResponse_n n' input target e'
      | None => [None]
      end
  end.
End Engine.

(** Whether the engine takes the answer of a backend call as a response:
    the test of [getAllResponsesWithParser] read on the record of the call. *)
Definition callAccepted (c : BackendCall) : bool :=
  negb (isEmpty (call_response c))
  && negb (String.eqb (call_response c) "Internal Error!")
  && (0 <? length (call_categories c))%nat.

(** The backend has no category for [normInput] on any parser of [P],
    whatever topic is pushed and however often it is asked. *)
Definition neverMatches `{AimlBackend} (normInput : string)
                        (P : AIMLParser -> Prop) : Prop :=
  (forall t p, P p -> P (AIMLParser_setTopic t p))
  /\ (forall p, P p -> P (AIMLParser_getResponse normInput p).2)
  /\ (forall p, P p -> (AIMLParser_getResponse normInput p).1.2 = []).

(** What the engine makes of the record of a call. *)
Definition responsesOf (c : BackendCall) : list string :=
  if callAccepted c then [call_response c] else [].

Definition matchesOf (rid : RuleIdType) (c : BackendCall) : MatchList :=
  if callAccepted c then convert rid (call_categories c) else [].

(** ** A reference backend *)

(** Modelled from the spec: the pattern backend ([AIMLParser], third-party
    ProgramQ) is not part of the sources.  The design document asks of it
    to compile pairs of a key and a pattern string into a matcher, and to
    return the matching keys for a text, a match accounting for the entire
    text.  [ReferenceBackend] does so for the documents that [buildAiml]
    writes, for patterns without wildcards and for templates that hold one
    output: the first category, in document order, whose pattern is the input
    fires; its template yields the output and sets the topic to the topic of
    the category when that topic is not empty, an empty one being a no-op,
    not a reset (section 4.3 of the design document).  As an AIML
    interpreter does, a parser remembers what it has answered so far
    ([rp_that], latest first).  It is the backend on which the engine is run
    on concrete rule sets below. *)
Record Category : Type := mkCategory {
  cat_id : Z;
  cat_pattern : string;
  cat_topic : string;
  cat_template : string
}.

Record RefParser : Type := mkRefParser {
  rp_categories : list Category;
  rp_topic : string;
  rp_that : list string
}.

Fixpoint string_drop (n : nat) (s : string) : string :=
  match n, s with
  | O, _ => s
  | S n', String _ s' => string_drop n' s'
  | S _, EmptyString => EmptyString
  end.

(** The text before and the text after the first occurrence of [needle]. *)
Fixpoint split_on (needle s : string) : option (string * string) :=
  if String.prefix needle s then
    Some (EmptyString, string_drop (String.length needle) s)
  else
    match s with
    | EmptyString => None
    | String a s' =>
        match split_on needle s' with
        | Some (before, after) => Some (String a before, after)
        | None => None
        end
    end.

(** The inverse of [escape] on the texts of a document. *)
Fixpoint xml_unescape (fuel : nat) (s : string) : string :=
  match fuel with
  | O => s
  | S fuel' =>
      match split_on "&amp;" s with
      | Some (before, after) => before +:+ "&" +:+ xml_unescape fuel' after
      | None => s
      end
  end.

Definition xml_text (s : string) : string := xml_unescape (String.length s) s.

Definition patternOpen : string :=
  "</pattern><template><think><set name=" +:+ dquote +:+ "topic" +:+ dquote
  +:+ ">".

Fixpoint parseCategories (fuel : nat) (doc : string) : list Category :=
  match fuel with
  | O => []
  | S fuel' =>
      match split_on "<category><id>" doc with
      | None => []
      | Some (_, r1) =>
      match split_on "</id><pattern>" r1 with
      | None => []
      | Some (ids, r2) =>
      match split_on patternOpen r2 with
      | None => []
      | Some (pat, r3) =>
      match split_on "</set></think>" r3 with
      | None => []
      | Some (topic, r4) =>
      match split_on "</template></category>" r4 with
      | None => []
      | Some (tmpl, r5) =>
          match NilZero.int_of_string ids with
          | Some n =>
              mkCategory (Z.of_int n) (xml_text pat) (xml_text topic)
                (xml_text tmpl) :: parseCategories fuel' r5
          | None => parseCategories fuel' r5
          end
      end end end end end
  end.

Definition RefParser_new (aiml : string) : RefParser :=
  mkRefParser (parseCategories (String.length aiml) aiml) "" [].

Definition RefParser_getResponse (input : string) (p : RefParser)
  : string * list Z * RefParser :=
  match List.find (fun c => String.eqb (cat_pattern c) input) (rp_categories p) with
  | Some c =>
      (cat_template c, [cat_id c],
       mkRefParser (rp_categories p)
         (if isEmpty (cat_topic c) then rp_topic p else cat_topic c)
         (cat_template c :: rp_that p))
  | None => ("", [], p)
  end.

#[export] Instance ReferenceBackend : AimlBackend := {|
  AIMLParser := RefParser;
  AIMLParser_new := RefParser_new;
  AIMLParser_setTopic := fun t p => mkRefParser (rp_categories p) t (rp_that p);
  AIMLParser_topic := rp_topic;
  AIMLParser_getResponse := RefParser_getResponse
|}.

(** ** Rule sets to run the engine on *)

(** A rule with id 7 and three input variants, as in the design document. *)
Definition rule7 : Rule :=
  mkRule 7 ["Hello"; "Hi there"; "Good morning"] ["Hello!"] [] "".

Definition ruleCars : Rule := mkRule 1 ["I like cars"] ["Me too"] [] "cars".
Definition ruleHello : Rule := mkRule 2 ["Hello"] ["Hi"] [] "".
Definition ruleBob : Rule := mkRule 3 ["Hello"] ["Hi Bob"] ["bob"] "".
Definition ruleBye : Rule := mkRule 4 ["Bye"] ["See you"] [] "".

(** A rule that lists the empty string, which is [ANY_USER], as a target. *)
Definition ruleSentinel : Rule := mkRule 5 ["Hello"] ["Hi"] [""] "".

(** A rule without outputs: its template holds nothing after the topic. *)
Definition ruleMute : Rule := mkRule 6 ["Hello"] [] [] "".


(** A new engine, on the reference backend, given a rule set. *)
Definition engineOf (rules : RuleList) : AimlEngine (backend := ReferenceBackend) :=
  setRules rules AimlEngine_new.

(** The part of a result that a caller, and the topic tracker, can see. *)
Definition outcome (res : option (string * MatchList * AimlEngine))
  : option (string * MatchList) :=
  match res with
  | Some (out, matches, _) => Some (out, matches)
  | None => None
  end.

Definition engineAfter (res : option (string * MatchList * AimlEngine))
                       (e : AimlEngine) : AimlEngine :=
  match res with
  | Some (_, _, e') => e'
  | None => e
  end.

(** An engine that has just answered a sentence about cars, by a rule that
    sets the topic. *)
Definition afterCars : AimlEngine :=
  engineAfter
    (getResponse RuleIdUnsigned "I like cars" ANY_USER (engineOf [ruleCars; ruleHello]))
    (engineOf [ruleCars; ruleHello]).

(** ** The loop guard *)

Module LoopGuard.

(** Modelled from the spec: the engine that has a loop guard (nlp-engine
    cb2engine, exercised by testInfiniteLoopDetection) is not part of the
    sources.  Section 4.6 of the design document: the output of a redirect
    rule is submitted again as the next input; the chain of submissions is
    bounded by a fixed engine-wide depth; a chain that does not reach a
    non-redirecting output within the bound makes the original input
    unmatched, with an empty output and an empty match list. *)
Inductive Output : Type :=
| Final (text : string)
| Redirect (next_input : string).

Section Guard.
(** The engine-wide bound, and the rule chosen for an input: its id, the
    index of the input variant and the output selected. *)
Variable MAX_DEPTH : nat.
Variable matchRule : string -> option (Z * Z * Output).

(** Modelled from the spec: the chain of submissions, at most [depth] of
    them; the result is the resolved output, if any, and the number of
    submissions made. *)
Fixpoint resolve (depth : nat) (input : string) : option string * nat :=
  match depth with
  | O => (None, O)
  | S depth' =>
      match matchRule input with
      | None => (None, 1%nat)
      | Some (_, _, Final text) => (Some text, 1%nat)
      | Some (_, _, Redirect next_input) =>
          let '(res, n) := resolve depth' next_input in (res, S n)
      end
  end.

(** Modelled from the spec: a guarded call, with its output, its match
    list (the rule that the original input matched) and the number of
    submissions made. *)
Definition getResponse (input : string) : string * MatchList * nat :=
  match resolve MAX_DEPTH input, matchRule input with
  | (Some text, n), Some (ruleId, inputIndex, _) =>
      (text, [(ruleId, inputIndex)], n)
  | (_, n), _ => ("", [], n)
  end.

(** [input] resolves to [text] with at most [n] submissions. *)
Inductive ResolvesWithin : nat -> string -> string -> Prop :=
| RW_final n input ruleId inputIndex text :
    matchRule input = Some (ruleId, inputIndex, Final text) ->
    ResolvesWithin (S n) input text
| RW_redirect n input ruleId inputIndex next_input text :
    matchRule input = Some (ruleId, inputIndex, Redirect next_input) ->
    ResolvesWithin n next_input text ->
    ResolvesWithin (S n) input text.
End Guard.

(** Modelled from the spec: rules with exact patterns, and the first rule
    one of whose inputs is the text. *)
Record GuardRule : Type := mkGuardRule {
  gr_id : Z;
  gr_inputs : list string;
  gr_output : Output
}.

Fixpoint indexOf (input : string) (inputs : list string) (k : Z) : option Z :=
  match inputs with
  | [] => None
  | i :: rest => if String.eqb i input then Some k else indexOf input rest (k + 1)
  end.

Fixpoint matchRuleIn (rules : list GuardRule) (input : string)
  : option (Z * Z * Output) :=
  match rules with
  | [] => None
  | r :: rest =>
      match indexOf input (gr_inputs r) 0 with
      | Some k => Some (gr_id r, k, gr_output r)
      | None => matchRuleIn rest input
      end
  end.

(** Rule A redirects to rule B, and rule B back to rule A. *)
Definition ruleA : GuardRule := mkGuardRule 1 ["Hola"] (Redirect "Simplemente hola").
Definition ruleB : GuardRule := mkGuardRule 2 ["Simplemente hola"] (Redirect "Hola").

End LoopGuard.

(** ** Further members, operations and callers *)

(** Whether the character [c] occurs in [s]. *)
Fixpoint occurs (c : ascii) (s : string) : bool :=
  match s with
  | EmptyString => false
  | String a s' => Ascii.eqb a c || occurs c s'
  end.

Section EngineOperations.
Variable rid : RuleIdType.
Context {backend : AimlBackend}.

(** [AimlEngine::hasVariable], [hasKeywordOp], [hasRegexOp] and
    [hasConditional]: this engine supports none of them. *)
Definition hasVariable (input : string) : bool := false.
Definition hasKeywordOp (input : string) : bool := false.
Definition hasRegexOp (input : string) : bool := false.
Definition hasConditional (output : string) : bool := false.

(** The public operations of the engine that change it, as a caller can
    issue them one after the other. *)
Inductive Op : Type :=
| OpSetRules (rules : RuleList)
| OpSetProperty (name : string) (value : QVariant)
| OpSetPreSanitizer (sanitizer : option (string -> string))
| OpSetLemmatizer (lemmatizer : option (string -> string))
| OpSetPostSanitizer (sanitizer : option (string -> string))
| OpClear
| OpGetResponse (input target : string).

(** The engine after one operation; a [getResponse] whose assertion fails
    leaves the engine as it found it. *)
Definition runOp (op : Op) (e : AimlEngine) : AimlEngine :=
  match op with
  | OpSetRules rules => setRules rules e
  | OpSetProperty name value => setProperty name value e
  | OpSetPreSanitizer sanitizer => setPreSanitizer sanitizer e
  | OpSetLemmatizer lemmatizer => setLemmatizer lemmatizer e
  | OpSetPostSanitizer sanitizer => setPostSanitizer sanitizer e
  | OpClear => clear e
  | OpGetResponse input target =>
      match getResponse rid input target e with
      | Some (_, _, e') => e'
      | None => e
      end
  end.

(** The engines that a caller can have: a constructed one, and what the
    operations make of it. *)
Inductive Reachable : AimlEngine -> Prop :=
| Reachable_new preSanitizer lemmatizer postSanitizer :
    Reachable (AimlEngine_new3 preSanitizer lemmatizer postSanitizer)
| Reachable_step op e : Reachable e -> Reachable (runOp op e).

(** The parsers that [p0] becomes in the hands of the engine, which pushes a
    topic and asks for a response, any number of times. *)
Inductive ParserFrom (p0 : AIMLParser) : AIMLParser -> Prop :=
| ParserFrom_refl : ParserFrom p0 p0
| ParserFrom_step p topic normInput :
    ParserFrom p0 p ->
    ParserFrom p0
      (AIMLParser_getResponse normInput (AIMLParser_setTopic topic p)).2.

(** *** The virtual user *)

(** [Lvk::BE::DefaultVirtualUser]: the engine it asks, behind the
    [Nlp::Engine] interface (a null pointer is [None]), and its evasives.
    The log file is left out. *)
Record DefaultVirtualUser : Type := mkDefaultVirtualUser {
  vu_engine : option AimlEngine;
  vu_evasives : list string
}.

(** [DefaultVirtualUser::setNlpEngine] and [setEvasives] *)
Definition setNlpEngine (engine : option AimlEngine) (u : DefaultVirtualUser)
  : DefaultVirtualUser :=
  mkDefaultVirtualUser engine (vu_evasives u).

Definition setEvasives (evasives : list string) (u : DefaultVirtualUser)
  : DefaultVirtualUser :=
  mkDefaultVirtualUser (vu_engine u) evasives.

(** [DefaultVirtualUser::getResponse(input, from)].  [draw] is what
    [Common::Random::getInt(0, m_evasives.size() - 1)] returns, a function
    that is not part of the sources at hand; the result is [None] when the
    assertion of the engine fails or when [draw] is no index of the
    evasives.  [from] is used for the log only. *)
Definition vu_getResponse (draw : nat) (input from : string)
                          (u : DefaultVirtualUser)
  : option (string * DefaultVirtualUser) :=
  match vu_engine u with
  | None => Some ("", u)
  | Some engine =>
      match getResponseAny rid input engine with
      | None => None
      | Some (response, matches, engine') =>
          let u' := mkDefaultVirtualUser (Some engine') (vu_evasives u) in
          let matched := negb (isEmpty response) && (0 <? length matches)%nat in
          if matched then Some (response, u')
          else if (0 <? length (vu_evasives u))%nat then
            match vu_evasives u !! draw with
            | Some evasive => Some (evasive, u')
            | None => None
            end
          else Some ("", u')
      end
  end.
End EngineOperations.

(** * Properties *)

(** ** The codec on its range *)

Lemma to_long_small z : - 2 ^ 63 <= z < 2 ^ 63 -> to_long z = z.
Proof.
  intros Hz. unfold to_long.
  rewrite Z.mod_small; lia.
Qed.

Lemma to_ulong_small z : 0 <= z < 2 ^ 64 -> to_ulong z = z.
Proof. intros Hz. unfold to_ulong. apply Z.mod_small; lia. Qed.

Lemma to_int_small z : - 2 ^ 31 <= z < 2 ^ 31 -> to_int z = z.
Proof.
  intros Hz. unfold to_int.
  rewrite Z.mod_small; lia.
Qed.

Lemma to_RuleId_small t z : 0 <= z < 2 ^ 63 -> to_RuleId t z = z.
Proof.
  intros Hz. destruct t; simpl.
  - apply to_long_small; lia.
  - apply to_ulong_small; lia.
Qed.

Lemma getCategoryId_small r k :
  0 <= r < 2 ^ 51 -> 0 <= k < 2 ^ 12 ->
  getCategoryId r k = Z.lor (Z.shiftl r 12) k.
Proof.
  intros Hr Hk. unfold getCategoryId, INPUT_NUMBER_BITS.
  rewrite (to_long_small r) by lia.
  rewrite to_long_small; [done|].
  rewrite Z.shiftl_mul_pow2 by lia. lia.
Qed.

Lemma shiftr_packed r k :
  0 <= k < 2 ^ 12 -> Z.shiftr (Z.lor (Z.shiftl r 12) k) 12 = r.
Proof.
  intros Hk.
  rewrite Z.shiftr_lor, Z.shiftr_shiftl_l by lia.
  replace (12 - 12) with 0 by lia. rewrite Z.shiftl_0_r.
  rewrite (Z.shiftr_div_pow2 k) by lia.
  rewrite Z.div_small by lia. apply Z.lor_0_r.
Qed.

Lemma land_packed r k :
  0 <= k < 2 ^ 12 -> Z.land (Z.lor (Z.shiftl r 12) k) 0xfff = k.
Proof.
  intros Hk.
  change 0xfff with (Z.ones 12).
  rewrite !Z.land_ones by lia.
  rewrite <- Z.land_ones by lia.
  rewrite Z.land_lor_distr_l.
  rewrite !Z.land_ones by lia.
  rewrite Z.shiftl_mul_pow2 by lia.
  rewrite Z.mod_mul by lia.
  rewrite Z.mod_small by lia. reflexivity.
Qed.

Lemma codec_roundtrip t r k :
  0 <= r < 2 ^ 51 -> 0 <= k < 2 ^ 12 ->
  getRuleId t (getCategoryId r k) = r /\ getInputNumber (getCategoryId r k) = k.
Proof.
  intros Hr Hk. rewrite getCategoryId_small by done.
  unfold getRuleId, getInputNumber, INPUT_NUMBER_BITS, INPUT_NUMBER_MASK.
  rewrite shiftr_packed, land_packed by done.
  split; [apply to_RuleId_small | apply to_int_small]; lia.
Qed.

(** ** Strings *)

Lemma append_assoc (a b c : string) : (a +:+ b) +:+ c = a +:+ (b +:+ c).
Proof.
  induction a as [|x a IH]; [reflexivity|].
  change (String x ((a +:+ b) +:+ c) = String x (a +:+ b +:+ c)). by f_equal.
Qed.

Lemma append_nil_r (a : string) : a +:+ "" = a.
Proof.
  induction a as [|x a IH]; [reflexivity|].
  change (String x (a +:+ "") = String x a). by f_equal.
Qed.

(** ** The shape of a call of the engine *)

Section EngineFacts.
Variable rid : RuleIdType.
Context {backend : AimlBackend}.

Lemma withParser_None normInput target matches parserName e :
  m_parsers e !! parserName = None ->
  getAllResponsesWithParser rid normInput target matches parserName e
  = ([], matches, e).
Proof. intros H. unfold getAllResponsesWithParser. by rewrite H. Qed.

Lemma withParser_Some normInput target matches parserName e it :
  m_parsers e !! parserName = Some it ->
  getAllResponsesWithParser rid normInput target matches parserName e
  = let c := backendCall normInput target parserName e it in
    (responsesOf c,
     if callAccepted c then convert rid (call_categories c) else matches,
     afterCall normInput target parserName e it).
Proof.
  intros H. unfold getAllResponsesWithParser. rewrite H.
  unfold afterCall, responsesOf, backendCall, parserAfter, callAccepted. simpl.
  destruct (AIMLParser_getResponse _ _) as [[response cats] it']. simpl.
  destruct response as [|a r]; simpl; [done|].
  destruct (negb _); simpl; [|done].
  destruct cats; simpl; done.
Qed.

Lemma responsesOf_nil c : responsesOf c = [] <-> callAccepted c = false.
Proof. unfold responsesOf. destruct (callAccepted c); split; congruence. Qed.

Lemma eqb_ANY target : String.eqb target ANY_USER = bool_decide (target = ANY_USER).
Proof.
  destruct (String.eqb_spec target ANY_USER) as [->|Hne].
  - by rewrite bool_decide_eq_true_2.
  - by rewrite bool_decide_eq_false_2.
Qed.

Lemma ghost_calls_prepared e : ghost_calls (prepared e) = ghost_calls e.
Proof. unfold prepared. by destruct (m_dirty e). Qed.

Lemma m_topics_prepared e : m_topics (prepared e) = m_topics e.
Proof. unfold prepared. by destruct (m_dirty e). Qed.

Lemma take_new {A} (new old : list A) :
  take (length (new ++ old) - length old) (new ++ old) = new.
Proof.
  rewrite length_app.
  replace (length new + length old - length old)%nat with (length new) by lia.
  by rewrite take_app_length.
Qed.

(** The four shapes of a call of [_getAllResponses] on an empty match
    list: no partition to ask; the partition of the target alone; the
    any-target partition alone, as the target has none; both. *)
Lemma getAll_cases input target e :
  let e1 := prepared e in
  let norm := normInputOf e1 input in
  let r := _getAllResponses rid input target [] e in
  (m_parsers e1 !! target = None
   /\ (target = ANY_USER \/ m_parsers e1 !! ANY_USER = None)
   /\ r = ([], [], e1))
  \/ (exists it, m_parsers e1 !! target = Some it
      /\ let c := backendCall norm target target e1 it in
         (callAccepted c = true \/ target = ANY_USER
          \/ m_parsers e1 !! ANY_USER = None)
         /\ r = (responsesOf c, matchesOf rid c, afterCall norm target target e1 it))
  \/ (m_parsers e1 !! target = None /\ target <> ANY_USER
      /\ exists it, m_parsers e1 !! ANY_USER = Some it
      /\ let c := backendCall norm target ANY_USER e1 it in
         r = (responsesOf c, matchesOf rid c, afterCall norm target ANY_USER e1 it))
  \/ (exists it1 it2, m_parsers e1 !! target = Some it1 /\ target <> ANY_USER
      /\ m_parsers e1 !! ANY_USER = Some it2
      /\ callAccepted (backendCall norm target target e1 it1) = false
      /\ let e2 := afterCall norm target target e1 it1 in
         let c := backendCall norm target ANY_USER e2 it2 in
         r = (responsesOf c, matchesOf rid c, afterCall norm target ANY_USER e2 it2)).
Proof.
  intros e1 norm r.
  assert (Hr : r = let '(responses, matches, e2) :=
                     getAllResponsesWithParser rid norm target [] target e1 in
                   if bool_decide (responses = []) && negb (String.eqb target ANY_USER)
                   then getAllResponsesWithParser rid norm target matches ANY_USER e2
                   else (responses, matches, e2)).
  { subst r e1 norm. unfold _getAllResponses, prepared, normInputOf.
    destruct (m_dirty e); reflexivity. }
  clearbody r. subst r. rewrite eqb_ANY.
  destruct (m_parsers e1 !! target) as [it1|] eqn:H1.
  - rewrite (withParser_Some _ _ _ _ _ _ H1). cbv zeta.
    destruct (callAccepted (backendCall norm target target e1 it1)) eqn:Hacc.
    + right; left. exists it1. split; [done|]. cbv zeta. rewrite Hacc.
      split; [by left|].
      unfold responsesOf, matchesOf. rewrite Hacc. reflexivity.
    + assert (Hnil : responsesOf (backendCall norm target target e1 it1) = [])
        by (by apply responsesOf_nil).
      rewrite Hnil.
      rewrite (bool_decide_eq_true_2 (@nil string = [])) by done. simpl.
      destruct (decide (target = ANY_USER)) as [Heq|Hne].
      * rewrite bool_decide_eq_true_2 by done. simpl.
        right; left. exists it1. split; [done|]. cbv zeta.
        split; [by right; left|].
        unfold responsesOf, matchesOf. by rewrite Hacc.
      * rewrite bool_decide_eq_false_2 by done. simpl.
        assert (Hlk : m_parsers (afterCall norm target target e1 it1) !! ANY_USER
                      = m_parsers e1 !! ANY_USER).
        { simpl. by rewrite lookup_insert_ne. }
        destruct (m_parsers e1 !! ANY_USER) as [it2|] eqn:H2.
        -- right; right; right. exists it1, it2.
           repeat split; try done.
           rewrite (withParser_Some _ _ _ _ _ _ Hlk). cbv zeta.
           unfold matchesOf. reflexivity.
        -- right; left. exists it1. split; [done|]. cbv zeta.
           split; [by right; right|].
           rewrite (withParser_None _ _ _ _ _ Hlk).
           unfold responsesOf, matchesOf. by rewrite Hacc.
  - rewrite (withParser_None _ _ _ _ _ H1).
    rewrite bool_decide_eq_true_2 by done. simpl.
    destruct (decide (target = ANY_USER)) as [Heq|Hne].
    + rewrite bool_decide_eq_true_2 by done. simpl.
      left. repeat split; try done. by left.
    + rewrite bool_decide_eq_false_2 by done. simpl.
      destruct (m_parsers e1 !! ANY_USER) as [it2|] eqn:H2.
      * right; right; left. repeat split; try done. exists it2.
        split; [done|]. cbv zeta.
        rewrite (withParser_Some _ _ _ _ _ _ H2). cbv zeta.
        unfold matchesOf. reflexivity.
      * left. repeat split; try done; [by right|].
        by rewrite (withParser_None _ _ _ _ _ H2).
Qed.

Lemma newCalls_cases input target e :
  let e1 := prepared e in
  let norm := normInputOf e1 input in
  let r := _getAllResponses rid input target [] e in
  (m_parsers e1 !! target = None
   /\ (target = ANY_USER \/ m_parsers e1 !! ANY_USER = None)
   /\ r = ([], [], e1) /\ newCalls rid input target e = [])
  \/ (exists it, m_parsers e1 !! target = Some it
      /\ let c := backendCall norm target target e1 it in
         (callAccepted c = true \/ target = ANY_USER
          \/ m_parsers e1 !! ANY_USER = None)
         /\ r = (responsesOf c, matchesOf rid c, afterCall norm target target e1 it)
         /\ newCalls rid input target e = [c])
  \/ (m_parsers e1 !! target = None /\ target <> ANY_USER
      /\ exists it, m_parsers e1 !! ANY_USER = Some it
      /\ let c := backendCall norm target ANY_USER e1 it in
         r = (responsesOf c, matchesOf rid c, afterCall norm target ANY_USER e1 it)
         /\ newCalls rid input target e = [c])
  \/ (exists it1 it2, m_parsers e1 !! target = Some it1 /\ target <> ANY_USER
      /\ m_parsers e1 !! ANY_USER = Some it2
      /\ let c1 := backendCall norm target target e1 it1 in
         let e2 := afterCall norm target target e1 it1 in
         let c2 := backendCall norm target ANY_USER e2 it2 in
         callAccepted c1 = false
         /\ r = (responsesOf c2, matchesOf rid c2, afterCall norm target ANY_USER e2 it2)
         /\ newCalls rid input target e = [c2; c1]).
Proof.
  intros e1 norm r.
  pose proof (ghost_calls_prepared e) as Hg. fold e1 in Hg.
  destruct (getAll_cases input target e)
    as [(H1 & H2 & Hr)|[(it & H1 & H2 & Hr)|[(H1 & Hne & it & H2 & Hr)
       |(it1 & it2 & H1 & Hne & H2 & Hacc & Hr)]]];
    fold e1 in H1, H2, Hr; fold norm in H2, Hr; try fold norm in Hacc.
  - left. repeat split; try done.
    unfold newCalls. rewrite Hr. simpl. rewrite Hg.
    by rewrite Nat.sub_diag, take_0.
  - right; left. exists it. split; [done|]. cbv zeta. repeat split; try done.
    unfold newCalls. rewrite Hr. simpl. rewrite Hg.
    apply (take_new [_] (ghost_calls e)).
  - right; right; left. repeat split; try done. exists it.
    split; [done|]. cbv zeta. split; [done|].
    unfold newCalls. rewrite Hr. simpl. rewrite Hg.
    apply (take_new [_] (ghost_calls e)).
  - right; right; right. exists it1, it2. repeat split; try done.
    unfold newCalls. rewrite Hr. simpl. rewrite Hg.
    apply (take_new [_; _] (ghost_calls e)).
Qed.

Lemma convert_last catId categoriesId :
  last categoriesId = Some catId ->
  convert rid categoriesId = [(getRuleId rid catId, getInputNumber catId)].
Proof. intros H. unfold convert. by rewrite H. Qed.

Lemma convert_length categoriesId :
  (0 < length categoriesId)%nat -> length (convert rid categoriesId) = 1%nat.
Proof.
  intros Hlen. unfold convert.
  destruct (last categoriesId) eqn:Hl; [done|].
  apply last_None in Hl. subst. simpl in Hlen. lia.
Qed.

Lemma callAccepted_true c :
  callAccepted c = true ->
  call_response c <> "" /\ call_response c <> "Internal Error!"
  /\ (0 < length (call_categories c))%nat.
Proof.
  unfold callAccepted. intros H.
  apply andb_prop in H as [H H3]. apply andb_prop in H as [H1 H2].
  repeat split.
  - intros Heq. rewrite Heq in H1. discriminate.
  - intros Heq. rewrite Heq in H2. discriminate.
  - by apply Nat.ltb_lt.
Qed.

Lemma matchesOf_length c :
  length (matchesOf rid c) = if callAccepted c then 1%nat else 0%nat.
Proof.
  unfold matchesOf. destruct (callAccepted c) eqn:Hacc; [|done].
  apply convert_length. by apply callAccepted_true.
Qed.

(** [getResponse] on top of the two results that [_getAllResponses] can
    have: the reading of a backend call, or nothing at all. *)
Lemma getResponse_call c input target e e0 :
  _getAllResponses rid input target [] e = (responsesOf c, matchesOf rid c, e0) ->
  getResponse rid input target e
  = Some (if callAccepted c then call_response c else "", matchesOf rid c, e0).
Proof.
  intros H. unfold getResponse, getAllResponses. rewrite H.
  pose proof (matchesOf_length c) as Hlen.
  unfold responsesOf. destruct (callAccepted c).
  - destruct (matchesOf rid c) as [|m [|m' l]]; simpl in Hlen; try lia. done.
  - by destruct (matchesOf rid c).
Qed.

Lemma getResponse_nocall input target e e0 :
  _getAllResponses rid input target [] e = ([], [], e0) ->
  getResponse rid input target e = Some ("", [], e0).
Proof. intros H. unfold getResponse, getAllResponses. by rewrite H. Qed.

(** [getResponse] returns, with the engine that [_getAllResponses] leaves. *)
Lemma getResponse_total input target e :
  exists out matches,
    getResponse rid input target e
    = Some (out, matches, (_getAllResponses rid input target [] e).2).
Proof.
  destruct (getAll_cases input target e)
    as [(_ & _ & Hres)|[(it & _ & _ & Hres)|[(_ & _ & it & _ & Hres)
       |(it1 & it2 & _ & _ & _ & _ & Hres)]]]; cbv zeta in Hres.
  - rewrite (getResponse_nocall _ _ _ _ Hres), Hres. eauto.
  - rewrite (getResponse_call _ _ _ _ _ Hres), Hres. eauto.
  - rewrite (getResponse_call _ _ _ _ _ Hres), Hres. eauto.
  - rewrite (getResponse_call _ _ _ _ _ Hres), Hres. eauto.
Qed.
End EngineFacts.

(** ** Match identity *)

Section MatchIdentity.
Variable rid : RuleIdType.
Context {backend : AimlBackend}.

(** C1 (as amended).  For a rule id [r] below [2^51] and an input-variant
    index [k] below [2^12], unpacking [getCategoryId r k] gives back [r]
    (by [getRuleId]) and [k] (by [getInputNumber]); and when the latest
    backend call of a [getResponse] is accepted and reports that category
    id last, [getResponse] returns the response of that call with the match
    list holding the one pair [(r, k)]. *)
Theorem match_identity_roundtrip (r k : Z) :
  0 <= r < 2 ^ 51 -> 0 <= k < 2 ^ 12 ->
  (getRuleId rid (getCategoryId r k) = r
   /\ getInputNumber (getCategoryId r k) = k)
  /\ forall input target e c rest,
       newCalls rid input target e = c :: rest ->
       callAccepted c = true ->
       last (call_categories c) = Some (getCategoryId r k) ->
       exists e', getResponse rid input target e
                  = Some (call_response c, [(r, k)], e').
Proof.
  intros Hr Hk.
  destruct (codec_roundtrip rid r k Hr Hk) as [Hrule Hinput].
  split; [done|].
  intros input target e c rest Hcalls Hacc Hlast.
  assert (Hm : matchesOf rid c = [(r, k)]).
  { unfold matchesOf. rewrite Hacc, (convert_last _ _ _ Hlast).
    by rewrite Hrule, Hinput. }
  destruct (newCalls_cases rid input target e)
    as [(_ & _ & _ & Hn)|[(it & _ & _ & Hres & Hn)|[(_ & _ & it & _ & Hres & Hn)
       |(it1 & it2 & _ & _ & _ & _ & Hres & Hn)]]];
    rewrite Hn in Hcalls; [done| | |];
    injection Hcalls as <- _;
    apply getResponse_call in Hres; rewrite Hres, Hacc, Hm; eauto.
Qed.
End MatchIdentity.

(** The design document's example of match identity: a rule with id 7 and
    three input variants, matched through the second one. *)
Lemma match_identity_roundtrip_witness :
  exists e',
    getResponse RuleIdUnsigned "Hi there" ANY_USER (engineOf [rule7])
    = Some ("Hello!", [(7, 1)], e').
Proof.
  refine (proj2 (match_identity_roundtrip RuleIdUnsigned 7 1 _ _)
            "Hi there" ANY_USER (engineOf [rule7])
            (mkBackendCall "" "" "Hi there" "Hello!" [28673] "") [] _ _ _).
  - lia.
  - lia.
  - vm_compute. reflexivity.
  - vm_compute. reflexivity.
  - vm_compute. reflexivity.
Defined.

(** C1 as stated fails beyond twelve bits of input index: the index 4096 of
    the rule 0 is unpacked as the index 0 of the rule 1. *)
Lemma match_identity_index_overflow :
  ~ (getRuleId RuleIdUnsigned (getCategoryId 0 4096) = 0
     /\ getInputNumber (getCategoryId 0 4096) = 4096).
Proof. vm_compute. intros [H _]. discriminate H. Qed.

(** ** Output and match list go together *)

Section OutputAndMatches.
Variable rid : RuleIdType.
Context {backend : AimlBackend}.

(** C10.  [getResponse] returns (its assertion does not fail), its output is
    non-empty exactly when its match list is non-empty, the match list then
    has exactly one element, and whenever the response-gathering step
    [_getAllResponses] yields a non-empty match list it yields a non-empty
    list of responses. *)
Theorem output_nonempty_iff_match (input target : string) (e : AimlEngine) :
  exists out matches e',
    getResponse rid input target e = Some (out, matches, e')
    /\ (out <> "" <-> matches <> [])
    /\ (matches <> [] -> length matches = 1%nat)
    /\ ((_getAllResponses rid input target [] e).1.2 <> [] ->
        (_getAllResponses rid input target [] e).1.1 <> []).
Proof.
  assert (Hcall : forall c e0,
    _getAllResponses rid input target [] e = (responsesOf c, matchesOf rid c, e0) ->
    exists out matches e',
      getResponse rid input target e = Some (out, matches, e')
      /\ (out <> "" <-> matches <> [])
      /\ (matches <> [] -> length matches = 1%nat)
      /\ ((_getAllResponses rid input target [] e).1.2 <> [] ->
          (_getAllResponses rid input target [] e).1.1 <> [])).
  { intros c e0 Hres.
    exists (if callAccepted c then call_response c else ""), (matchesOf rid c), e0.
    split; [by apply getResponse_call|].
    rewrite Hres. simpl.
    pose proof (matchesOf_length rid c) as Hlen.
    unfold responsesOf.
    destruct (callAccepted c) eqn:Hacc.
    - apply callAccepted_true in Hacc as (Hne & _ & _).
      destruct (matchesOf rid c) as [|m l]; simpl in Hlen; [lia|].
      repeat split; done.
    - destruct (matchesOf rid c) as [|m l]; simpl in Hlen; [|lia].
      repeat split; done. }
  destruct (getAll_cases rid input target e)
    as [(_ & _ & Hres)|[(it & _ & _ & Hres)|[(_ & _ & it & _ & Hres)
       |(it1 & it2 & _ & _ & _ & _ & Hres)]]]; eauto.
  exists "", [], (prepared e). split; [by apply getResponse_nocall|].
  rewrite Hres. simpl. repeat split; done.
Qed.

(** The latest backend call of a [getResponse] is one of those that the
    hypothesis [Hall] discards: the result is empty. *)
Ltac discard_latest_call :=
  match goal with
  | Hres : _getAllResponses _ _ _ [] _ = _,
    Hn : newCalls _ _ _ _ = _,
    Hdis : forall c, _ -> callAccepted c = false,
    Hall : forall c, c ∈ newCalls _ _ _ _ -> _ |- _ =>
      apply getResponse_call in Hres; rewrite Hres;
      unfold matchesOf; rewrite Hdis;
      [eauto | apply Hall; rewrite Hn; apply list_elem_of_here]
  end.

(** C9.  A backend response that is empty, or that is the string
    Internal Error!, is discarded whatever categories came with it: the call
    of [getAllResponsesWithParser] yields no response and leaves the match
    list as it was, and when every backend call of a [getResponse] answers
    so, [getResponse] returns the empty string and an empty match list. *)
Theorem discarded_backend_response :
  (forall normInput target matches parserName e it,
      m_parsers e !! parserName = Some it ->
      let c := backendCall normInput target parserName e it in
      call_response c = "" \/ call_response c = "Internal Error!" ->
      (getAllResponsesWithParser rid normInput target matches parserName e).1
      = ([], matches))
  /\ (forall input target e,
         (forall c, c ∈ newCalls rid input target e ->
                    call_response c = "" \/ call_response c = "Internal Error!") ->
         exists e', getResponse rid input target e = Some ("", [], e')).
Proof.
  assert (Hdis : forall c,
    call_response c = "" \/ call_response c = "Internal Error!" ->
    callAccepted c = false).
  { intros c Hc. destruct (callAccepted c) eqn:Hacc; [|done].
    apply callAccepted_true in Hacc as (H1 & H2 & _). by destruct Hc. }
  split.
  - intros normInput target matches parserName e it Hit c Hc.
    rewrite (withParser_Some _ _ _ _ _ _ _ Hit). cbv zeta. fold c.
    unfold responsesOf. by rewrite (Hdis c Hc).
  - intros input target e Hall.
    destruct (newCalls_cases rid input target e)
      as [(_ & _ & Hres & _)|[(it & _ & _ & Hres & Hn)|[(_ & _ & it & _ & Hres & Hn)
         |(it1 & it2 & _ & _ & _ & _ & Hres & Hn)]]].
    + eexists. by apply getResponse_nocall.
    + discard_latest_call.
    + discard_latest_call.
    + discard_latest_call.
Qed.
End OutputAndMatches.

(** A rule without outputs: the backend reports its category with an empty
    response, and the engine reports no match. *)
Lemma discarded_backend_response_witness :
  newCalls RuleIdUnsigned "Hello" ANY_USER (engineOf [ruleMute])
  = [mkBackendCall "" "" "Hello" "" [24576] ""]
  /\ exists e',
       getResponse RuleIdUnsigned "Hello" ANY_USER (engineOf [ruleMute])
       = Some ("", [], e').
Proof.
  assert (Hcalls : newCalls RuleIdUnsigned "Hello" ANY_USER (engineOf [ruleMute])
                   = [mkBackendCall "" "" "Hello" "" [24576] ""])
    by (vm_compute; reflexivity).
  split; [exact Hcalls|].
  apply (proj2 (discarded_backend_response RuleIdUnsigned)).
  intros c Hc. rewrite Hcalls in Hc.
  apply list_elem_of_singleton in Hc. subst c. left. reflexivity.
Defined.

(** ** Target resolution *)

Section TargetResolution.
Variable rid : RuleIdType.
Context {backend : AimlBackend}.

Lemma fallback_after_accept target c :
  callAccepted c = true ->
  bool_decide (responsesOf c = []) && negb (String.eqb target ANY_USER) = false.
Proof.
  intros Hacc. unfold responsesOf. rewrite Hacc.
  by rewrite bool_decide_eq_false_2.
Qed.

Lemma fallback_after_reject target c :
  callAccepted c = false -> target <> ANY_USER ->
  bool_decide (responsesOf c = []) && negb (String.eqb target ANY_USER) = true.
Proof.
  intros Hacc Hne. apply responsesOf_nil in Hacc. rewrite Hacc.
  rewrite (bool_decide_eq_true_2 (@nil string = [])) by done.
  rewrite eqb_ANY, bool_decide_eq_false_2 by done. done.
Qed.

(** C3.  With [first] the query of the partition of the named target (on
    the engine once rebuilt if dirty), the partitions that one [getResponse]
    consults are, in order: the partition of the target, if there is one;
    then the any-target partition, exactly when [first] produced no response
    and the target is not [ANY_USER].  A response of [first] is the result
    of [getResponse]; and when [first] produced none for a named target, a
    response that the any-target partition gives is the result. *)
Theorem two_phase_target_resolution (input target : string) (e : AimlEngine) :
  let e1 := prepared e in
  let norm := normInputOf e1 input in
  let first := getAllResponsesWithParser rid norm target [] target e1 in
  let fallback :=
    bool_decide (first.1.1 = []) && negb (String.eqb target ANY_USER) in
  call_parser <$> rev (newCalls rid input target e)
  = (match m_parsers e1 !! target with Some _ => [target] | None => [] end
     ++ (if fallback
         then match m_parsers e1 !! ANY_USER with
              | Some _ => [ANY_USER]
              | None => []
              end
         else []))%list
  /\ (first.1.1 <> [] ->
      exists response,
        first.1.1 = [response]
        /\ getResponse rid input target e = Some (response, first.1.2, first.2))
  /\ (fallback = true ->
      forall it, m_parsers e1 !! ANY_USER = Some it ->
      let c := backendCall norm target ANY_USER first.2 it in
      callAccepted c = true ->
      exists e',
        getResponse rid input target e
        = Some (call_response c, convert rid (call_categories c), e')).
Proof.
  intros e1 norm first fallback.
  destruct (newCalls_cases rid input target e)
    as [(H1 & H2 & Hres & Hn)|[(it & H1 & H2 & Hres & Hn)|[(H1 & Hne & it & H2 & Hres & Hn)
       |(it1 & it2 & H1 & Hne & H2 & Hacc & Hres & Hn)]]];
    fold e1 in H1, H2, Hres; fold norm in H2, Hres; try fold norm in Hacc;
    rewrite Hn; fold e1; rewrite H1.
  - (* no partition is consulted *)
    assert (Hfirst : first = ([], [], e1)) by (by apply withParser_None).
    subst fallback. rewrite Hfirst. simpl.
    split; [|split].
    + destruct H2 as [-> | ->]; [done|].
      by destruct (negb _).
    + done.
    + intros Hfb it Hit. destruct H2 as [-> | H2]; [done|congruence].
  - (* the partition of the target alone *)
    assert (Hfirst : first = (responsesOf (backendCall norm target target e1 it),
                              matchesOf rid (backendCall norm target target e1 it),
                              afterCall norm target target e1 it))
      by (by apply withParser_Some).
    subst fallback. rewrite Hfirst. simpl.
    split; [|split].
    + destruct H2 as [Hacc|[-> | ->]].
      * by rewrite fallback_after_accept.
      * by rewrite andb_false_r.
      * by destruct (_ && _).
    + intros Hresp. apply getResponse_call in Hres.
      unfold responsesOf in Hresp |- *.
      destruct (callAccepted _) eqn:Hacc; [|done].
      eexists. split; [done|]. exact Hres.
    + intros Hfb it' Hit'. destruct H2 as [Hacc | [-> | H2]].
      * by rewrite fallback_after_accept in Hfb.
      * by rewrite andb_false_r in Hfb.
      * congruence.
  - (* the any-target partition alone *)
    assert (Hfirst : first = ([], [], e1)) by (by apply withParser_None).
    subst fallback. rewrite Hfirst. simpl.
    rewrite eqb_ANY, bool_decide_eq_false_2 by done. simpl. rewrite H2.
    split; [done|split; [done|]].
    intros _ it' Hit' Hacc. assert (it' = it) as -> by congruence.
    apply getResponse_call in Hres. rewrite Hres, Hacc.
    unfold matchesOf. rewrite Hacc. eauto.
  - (* both partitions *)
    assert (Hfirst : first = (responsesOf (backendCall norm target target e1 it1),
                              matchesOf rid (backendCall norm target target e1 it1),
                              afterCall norm target target e1 it1))
      by (by apply withParser_Some).
    subst fallback. rewrite Hfirst. simpl.
    rewrite fallback_after_reject by done. rewrite H2.
    split; [done|split].
    + intros Hresp. by apply responsesOf_nil in Hacc.
    + intros _ it' Hit' Hacc'. assert (it' = it2) as -> by congruence.
      apply getResponse_call in Hres. rewrite Hres, Hacc'.
      unfold matchesOf. rewrite Hacc'. eauto.
Qed.
End TargetResolution.

(** A rule for bob only and a rule for everyone.  Bob's partition has no
    answer to Bye, the any-target partition has one; bob's partition answers
    Hello, and the any-target partition is not asked. *)
Lemma two_phase_target_resolution_witness :
  (call_parser <$> rev (newCalls RuleIdUnsigned "Bye" "bob" (engineOf [ruleBob; ruleBye]))
   = ["bob"; ANY_USER]
   /\ exists e',
        getResponse RuleIdUnsigned "Bye" "bob" (engineOf [ruleBob; ruleBye])
        = Some ("See you", [(4, 0)], e'))
  /\ (call_parser <$> rev (newCalls RuleIdUnsigned "Hello" "bob" (engineOf [ruleBob; ruleBye]))
      = ["bob"]
      /\ exists e',
           getResponse RuleIdUnsigned "Hello" "bob" (engineOf [ruleBob; ruleBye])
           = Some ("Hi Bob", [(3, 0)], e')).
Proof.
  split.
  - pose proof (two_phase_target_resolution RuleIdUnsigned "Bye" "bob"
                  (engineOf [ruleBob; ruleBye])) as H.
    cbv zeta in H. destruct H as (Htrace & _ & Hfallback).
    split.
    + rewrite Htrace. vm_compute. reflexivity.
    + destruct (Hfallback ltac:(vm_compute; reflexivity)
                  (mkRefParser [mkCategory 16384 "Bye" "" "See you"] "" [])
                  ltac:(vm_compute; reflexivity)
                  ltac:(vm_compute; reflexivity)) as [e' He'].
      exists e'. rewrite He'. vm_compute. reflexivity.
  - pose proof (two_phase_target_resolution RuleIdUnsigned "Hello" "bob"
                  (engineOf [ruleBob; ruleBye])) as H.
    cbv zeta in H. destruct H as (Htrace & Hfirst & _).
    split.
    + rewrite Htrace. vm_compute. reflexivity.
    + destruct (Hfirst ltac:(vm_compute; discriminate))
        as (response & Hresponse & Hres).
      vm_compute in Hresponse. injection Hresponse as <-.
      eexists. rewrite Hres. reflexivity.
Defined.

(** ** The tracked topic *)

Section TopicTracking.
Variable rid : RuleIdType.
Context {backend : AimlBackend}.

Lemma topicOf_prepared e target : topicOf (prepared e) target = topicOf e target.
Proof. unfold topicOf. by rewrite m_topics_prepared. Qed.


End TopicTracking.



(** ** No match *)

Section NoMatch.
Variable rid : RuleIdType.
Context {backend : AimlBackend}.

Lemma m_dirty_prepared e : m_dirty (prepared e) = false.
Proof. unfold prepared. by destruct (m_dirty e) eqn:H. Qed.

Lemma prepared_clean e : m_dirty e = false -> prepared e = e.
Proof. intros H. unfold prepared. by rewrite H. Qed.

Lemma parsers_afterCall normInput target parserName e it name :
  m_parsers (afterCall normInput target parserName e it) !! name
  = if decide (parserName = name)
    then Some (parserAfter normInput target e it)
    else m_parsers e !! name.
Proof. simpl. apply lookup_insert. Qed.

Lemma call_rejected_of_neverMatches P normInput target parserName e it :
  neverMatches normInput P -> P it ->
  callAccepted (backendCall normInput target parserName e it) = false
  /\ P (parserAfter normInput target e it).
Proof.
  intros (Hset & Hget & Hnone) Hit.
  pose proof (Hset (topicOf e target) it Hit) as Hp.
  split.
  - unfold callAccepted, backendCall. simpl.
    rewrite (Hnone _ Hp). simpl. by rewrite andb_false_r.
  - unfold parserAfter. by apply Hget.
Qed.

(** One call on an input without matching category: nothing is returned,
    and the engine is again one on which the input has no category. *)
Lemma no_match_step P input target e :
  neverMatches (normInputOf (prepared e) input) P ->
  (forall p, m_parsers (prepared e) !! target = Some p -> P p) ->
  (forall p, m_parsers (prepared e) !! ANY_USER = Some p -> P p) ->
  exists e',
    getResponse rid input target e = Some ("", [], e')
    /\ normInputOf (prepared e') input = normInputOf (prepared e) input
    /\ (forall p, m_parsers (prepared e') !! target = Some p -> P p)
    /\ (forall p, m_parsers (prepared e') !! ANY_USER = Some p -> P p).
Proof.
  intros Hnever Htarget Hany.
  pose proof (m_dirty_prepared e) as Hclean.
  assert (Hkeep : forall (name parserName : string) p q,
    (forall p', m_parsers (prepared e) !! name = Some p' -> P p') ->
    P q ->
    (if decide (parserName = name) then Some q
     else m_parsers (prepared e) !! name) = Some p -> P p).
  { intros name parserName p q Hname Hq Hlk.
    destruct (decide (parserName = name)); [congruence|eauto]. }
  destruct (getAll_cases rid input target e)
    as [(_ & _ & Hres)|[(it & H1 & _ & Hres)|[(_ & _ & it & H2 & Hres)
       |(it1 & it2 & H1 & Hne & H2 & _ & Hres)]]].
  - exists (prepared e). split; [by apply getResponse_nocall|].
    rewrite (prepared_clean _ Hclean). done.
  - destruct (call_rejected_of_neverMatches P _ target target (prepared e) it
                Hnever (Htarget _ H1)) as [Hrej HP].
    apply getResponse_call in Hres. rewrite Hres.
    unfold matchesOf. rewrite Hrej. eexists. split; [reflexivity|].
    rewrite prepared_clean by exact Hclean.
    split; [reflexivity|].
    split; intros p; rewrite parsers_afterCall; intros Hlk;
      [exact (Hkeep target target _ _ Htarget HP Hlk)
      |exact (Hkeep ANY_USER target _ _ Hany HP Hlk)].
  - destruct (call_rejected_of_neverMatches P _ target ANY_USER (prepared e) it
                Hnever (Hany _ H2)) as [Hrej HP].
    apply getResponse_call in Hres. rewrite Hres.
    unfold matchesOf. rewrite Hrej. eexists. split; [reflexivity|].
    rewrite prepared_clean by exact Hclean.
    split; [reflexivity|].
    split; intros p; rewrite parsers_afterCall; intros Hlk;
      [exact (Hkeep target ANY_USER _ _ Htarget HP Hlk)
      |exact (Hkeep ANY_USER ANY_USER _ _ Hany HP Hlk)].
  - destruct (call_rejected_of_neverMatches P _ target target (prepared e) it1
                Hnever (Htarget _ H1)) as [Hrej1 HP1].
    set (e2 := afterCall (normInputOf (prepared e) input) target target
                 (prepared e) it1) in *.
    destruct (call_rejected_of_neverMatches P _ target ANY_USER e2 it2
                Hnever (Hany _ H2)) as [Hrej2 HP2].
    apply getResponse_call in Hres. rewrite Hres.
    unfold matchesOf. rewrite Hrej2. eexists. split; [reflexivity|].
    rewrite prepared_clean by exact Hclean.
    split; [reflexivity|].
    split; intros p; rewrite parsers_afterCall; subst e2;
      rewrite parsers_afterCall; intros Hlk.
    + destruct (decide (ANY_USER = target)); [congruence|].
      destruct (decide (target = target)); congruence.
    + destruct (decide (ANY_USER = ANY_USER)); congruence.
Qed.

(** C2.  When the backend has no category for the normalized input on the
    parser of the partition of the target nor on the parser of the
    any-target partition (of the engine once rebuilt if dirty), however
    often and under whatever topic it is asked, every one of any number of
    successive calls of [getResponse] returns the empty string and an empty
    match list. *)
Theorem no_match_contract (P : AIMLParser -> Prop) (input target : string)
                          (e : AimlEngine) :
  neverMatches (normInputOf (prepared e) input) P ->
  (forall p, m_parsers (prepared e) !! target = Some p -> P p) ->
  (forall p, m_parsers (prepared e) !! ANY_USER = Some p -> P p) ->
  forall n, getResponse_n rid n input target e = replicate n (Some ("", [])).
Proof.
  intros Hnever Htarget Hany n. revert e Hnever Htarget Hany.
  induction n as [|n IH]; intros e Hnever Htarget Hany; [done|].
  destruct (no_match_step P input target e Hnever Htarget Hany)
    as (e' & Hres & Hnorm & Htarget' & Hany').
  simpl. rewrite Hres. f_equal.
  apply IH; [by rewrite Hnorm|done|done].
Qed.
End NoMatch.

(** On the rule set of [rule7] no pattern is the input Goodbye: three
    successive calls for bob return nothing. *)
Lemma no_match_contract_witness :
  getResponse_n RuleIdUnsigned 3 "Goodbye" "bob" (engineOf [rule7])
  = [Some ("", []); Some ("", []); Some ("", [])].
Proof.
  apply (no_match_contract (backend := ReferenceBackend) RuleIdUnsigned
           (fun p : @AIMLParser ReferenceBackend =>
              List.find (fun c => String.eqb (cat_pattern c) "Goodbye")
                (rp_categories p) = None)).
  - assert (Hnorm : normInputOf (prepared (engineOf [rule7])) "Goodbye" = "Goodbye")
      by (vm_compute; reflexivity).
    rewrite Hnorm. unfold neverMatches. simpl. unfold RefParser_getResponse.
    split; [|split].
    + intros t p Hp. exact Hp.
    + intros p Hp. rewrite Hp. exact Hp.
    + intros p Hp. rewrite Hp. reflexivity.
  - intros p Hp. vm_compute in Hp. discriminate Hp.
  - intros p Hp. vm_compute in Hp. injection Hp as <-. reflexivity.
Defined.

(** ** The content of the partitions *)

Section PartitionContent.
Context {backend : AimlBackend}.

Lemma buildAimlRule_from_entries e rule inputs : forall i aiml,
  buildAimlRule_from e rule i inputs aiml
  = aiml +:+ concat_strings
               (imap (fun k input_k => buildEntry e rule (i + Z.of_nat k) input_k)
                  inputs).
Proof.
  induction inputs as [|input_i rest IH]; intros i aiml; simpl.
  - by rewrite append_nil_r.
  - rewrite IH, append_assoc. do 2 f_equal.
    + by rewrite Z.add_0_r.
    + f_equal. apply imap_ext. intros k x _. simpl. f_equal. lia.
Qed.

Lemma buildAimlRule_entries e aiml rule :
  buildAimlRule e aiml rule = aiml +:+ ruleEntries e rule.
Proof. unfold buildAimlRule, ruleEntries. by rewrite buildAimlRule_from_entries. Qed.

Lemma buildAimlRules_entries e target rules : forall aiml,
  buildAimlRules e target rules aiml
  = aiml +:+ concat_strings
               (ruleEntries e <$> List.filter (selectsRule target) rules).
Proof.
  induction rules as [|rule rest IH]; intros aiml; simpl.
  - by rewrite append_nil_r.
  - rewrite IH. destruct (selectsRule target rule); simpl; [|done].
    by rewrite buildAimlRule_entries, append_assoc.
Qed.

Lemma refreshTargets_lookup e targets : forall parsers t,
  refreshTargets e targets parsers !! t
  = match parsers !! t with
    | Some p => Some p
    | None =>
        if bool_decide (t ∈ targets)
        then Some (AIMLParser_new (buildAiml e t)) else None
    end.
Proof.
  induction targets as [|target rest IH]; intros parsers t;
    cbn [refreshTargets].
  - destruct (parsers !! t); [done|].
    rewrite bool_decide_eq_false_2; [done|]. apply not_elem_of_nil.
  - rewrite IH. destruct (decide (t = target)) as [->|Hne].
    + rewrite (bool_decide_eq_true_2 (target ∈ target :: rest))
        by apply list_elem_of_here.
      destruct (parsers !! target) eqn:Hp; [by rewrite Hp|].
      by rewrite lookup_insert_eq.
    + assert (Hin : bool_decide (t ∈ target :: rest) = bool_decide (t ∈ rest)).
      { apply bool_decide_ext. rewrite elem_of_cons.
        split; [by intros [?|?]|by right]. }
      rewrite Hin.
      destruct (parsers !! target); [done|].
      by rewrite lookup_insert_ne.
Qed.

Lemma refreshRules_lookup e rules : forall parsers t,
  refreshRules e rules parsers !! t
  = match parsers !! t with
    | Some p => Some p
    | None =>
        if bool_decide (Exists (fun rule => t ∈ rule_target rule) rules)
        then Some (AIMLParser_new (buildAiml e t)) else None
    end.
Proof.
  induction rules as [|rule rest IH]; intros parsers t; cbn [refreshRules].
  - destruct (parsers !! t); [done|].
    rewrite bool_decide_eq_false_2; [done|]. by intros H%Exists_nil.
  - rewrite IH, refreshTargets_lookup.
    destruct (parsers !! t); [done|].
    destruct (decide (t ∈ rule_target rule)) as [Hin|Hnin].
    + rewrite (bool_decide_eq_true_2 _ Hin).
      rewrite bool_decide_eq_true_2; [done|]. by apply Exists_cons_hd.
    + rewrite (bool_decide_eq_false_2 _ Hnin).
      apply (f_equal (fun b : bool => if b then _ else _)).
      apply bool_decide_ext. rewrite Exists_cons.
      split; [by right|by intros [?|?]].
Qed.

Lemma selectsRule_named target rule :
  target <> ANY_USER ->
  selectsRule target rule = true <-> target ∈ rule_target rule.
Proof.
  intros Hne. unfold selectsRule.
  rewrite (bool_decide_eq_false_2 _ Hne). simpl.
  apply bool_decide_eq_true.
Qed.

Lemma selectsRule_any rule :
  selectsRule ANY_USER rule = true
  <-> rule_target rule = [] \/ ANY_USER ∈ rule_target rule.
Proof.
  unfold selectsRule.
  rewrite (bool_decide_eq_true_2 (ANY_USER = ANY_USER)) by done. simpl.
  rewrite orb_true_iff, !bool_decide_eq_true. done.
Qed.

Lemma refreshAiml_lookup e t :
  m_parsers (refreshAiml e) !! t
  = if bool_decide (t = ANY_USER
                    \/ Exists (fun rule => t ∈ rule_target rule) (m_rules e))
    then Some (AIMLParser_new (buildAiml e t)) else None.
Proof.
  unfold refreshAiml. simpl. rewrite refreshRules_lookup.
  destruct (decide (t = ANY_USER)) as [->|Hne].
  - rewrite lookup_insert_eq. rewrite bool_decide_eq_true_2; [done|by left].
  - rewrite lookup_insert_ne, lookup_empty by done.
    apply (f_equal (fun b : bool => if b then _ else _)).
    apply bool_decide_ext. split; [by right|by intros [?|?]].
Qed.

Lemma buildAiml_entries e t :
  buildAiml e t
  = aimlHeader
    +:+ concat_strings
          (ruleEntries e <$> List.filter (selectsRule t) (m_rules e))
    +:+ "</aiml>".
Proof. unfold buildAiml. by rewrite buildAimlRules_entries, append_assoc. Qed.

(** C4 (as amended).  After [refreshAiml] there is a partition for
    [ANY_USER] and for each target that appears in the targets of some rule,
    and for nothing else; the partition of [t] is the parser of the document
    [buildAiml e t].  That document holds, between header and footer and in
    the order of the rule set, the entries of exactly the rules that
    [buildAiml] selects for [t]: for a target other than [ANY_USER] the rules
    whose targets contain it, for [ANY_USER] the rules whose targets are
    empty or contain [ANY_USER] itself (the empty string).  The entries of a
    rule are one entry for each index [k] of its inputs, whose category has
    the id [getCategoryId (rule_id rule) k] and as pattern the input of index
    [k], trimmed, normalized and escaped. *)
Theorem partition_content (e : AimlEngine) :
  (forall t,
      m_parsers (refreshAiml e) !! t
      = if bool_decide (t = ANY_USER
                        \/ Exists (fun rule => t ∈ rule_target rule) (m_rules e))
        then Some (AIMLParser_new (buildAiml e t)) else None)
  /\ (forall t,
         buildAiml e t
         = aimlHeader
           +:+ concat_strings
                 (ruleEntries e <$> List.filter (selectsRule t) (m_rules e))
           +:+ "</aiml>")
  /\ (forall t rule, t <> ANY_USER ->
         selectsRule t rule = true <-> t ∈ rule_target rule)
  /\ (forall rule,
         selectsRule ANY_USER rule = true
         <-> rule_target rule = [] \/ ANY_USER ∈ rule_target rule)
  /\ (forall rule,
         ruleEntries e rule
         = concat_strings
             (imap (fun k input_k => buildEntry e rule (Z.of_nat k) input_k)
                (rule_input rule)))
  /\ (forall rule k input_k,
         exists before after rest,
           buildEntry e rule k input_k
           = before +:+ buildCategory e rule k input_k +:+ after
           /\ buildCategory e rule k input_k
              = "<category><id>" +:+ qnumber (getCategoryId (rule_id rule) k)
                +:+ "</id><pattern>" +:+ escape (normalize e (trimmed input_k))
                +:+ "</pattern>" +:+ rest).
Proof.
  split; [|split; [|split; [|split; [|split]]]].
  - apply refreshAiml_lookup.
  - apply buildAiml_entries.
  - intros t rule. apply selectsRule_named.
  - apply selectsRule_any.
  - done.
  - intros rule k input_k. unfold buildEntry.
    destruct (m_setTopics e).
    + exists ("<topic name=" +:+ dquote
              +:+ escape (qremove dquote_char (rule_topic rule)) +:+ dquote
              +:+ ">"),
             ("</topic>"
              +:+ "<topic name=" +:+ dquote +:+ dquote +:+ ">"
              +:+ buildCategory e rule k input_k +:+ "</topic>").
      eexists. split.
      * by rewrite !append_assoc.
      * reflexivity.
    + exists "", "". eexists. split.
      * by rewrite append_nil_r.
      * reflexivity.
Qed.
End PartitionContent.

(** The rule for bob is in the partition of bob, which is the parser of the
    document built for bob. *)
Lemma partition_content_witness :
  selectsRule "bob" ruleBob = true
  /\ m_parsers (refreshAiml (engineOf [ruleBob; ruleBye])) !! "bob"
     = Some (AIMLParser_new (buildAiml (engineOf [ruleBob; ruleBye]) "bob")).
Proof.
  destruct (partition_content (engineOf [ruleBob; ruleBye]))
    as (Hparsers & _ & Hnamed & _).
  split.
  - apply (Hnamed "bob" ruleBob); [discriminate|apply list_elem_of_here].
  - rewrite Hparsers. reflexivity.
Defined.

(** C4 as stated fails for the any-target partition: a rule whose targets
    are not empty, but hold the empty string, is taken into it, and answers
    for every partner. *)
Lemma any_partition_takes_sentinel_target :
  ~ (forall rule, rule ∈ [ruleSentinel] ->
                  selectsRule ANY_USER rule = true -> rule_target rule = [])
  /\ outcome (getResponse RuleIdUnsigned "Hello" "bob" (engineOf [ruleSentinel]))
     = Some ("Hi", [(5, 0)]).
Proof.
  split.
  - intros H. specialize (H ruleSentinel (list_elem_of_here _ _) eq_refl).
    discriminate H.
  - vm_compute. reflexivity.
Qed.

(** ** Replacing the rule set *)

Section RuleSetReplacement.
Variable rid : RuleIdType.
Context {backend : AimlBackend}.

Lemma buildEntry_ext e1 e2 rule k input_k :
  sameSetup e1 e2 -> buildEntry e1 rule k input_k = buildEntry e2 rule k input_k.
Proof.
  intros (Hpre & Hpost & Hlem & _ & Hset).
  unfold buildEntry, buildCategory, normalize.
  by rewrite Hpre, Hpost, Hlem, Hset.
Qed.

Lemma buildAiml_ext e1 e2 t :
  sameSetup e1 e2 -> m_rules e1 = m_rules e2 -> buildAiml e1 t = buildAiml e2 t.
Proof.
  intros Hsetup Hrules.
  rewrite !buildAiml_entries, Hrules. do 3 f_equal.
  apply list_fmap_ext. intros _ rule _. unfold ruleEntries. f_equal.
  apply imap_ext. intros k input_k _. by apply buildEntry_ext.
Qed.

Lemma refreshAiml_ext e1 e2 :
  sameSetup e1 e2 -> m_rules e1 = m_rules e2 ->
  m_parsers (refreshAiml e1) = m_parsers (refreshAiml e2).
Proof.
  intros Hsetup Hrules. apply map_eq. intros t.
  by rewrite !refreshAiml_lookup, Hrules, (buildAiml_ext e1 e2 t Hsetup Hrules).
Qed.

Lemma withParser_sameMembers normInput target matches parserName e1 e2 :
  sameMembers e1 e2 ->
  (getAllResponsesWithParser rid normInput target matches parserName e1).1
  = (getAllResponsesWithParser rid normInput target matches parserName e2).1
  /\ sameMembers
       (getAllResponsesWithParser rid normInput target matches parserName e1).2
       (getAllResponsesWithParser rid normInput target matches parserName e2).2.
Proof.
  intros ((Hpre & Hpost & Hlem & Htopics & Hset) & Hrules & Hparsers & Hdirty).
  destruct (m_parsers e1 !! parserName) as [it|] eqn:Hit.
  - assert (Hit2 : m_parsers e2 !! parserName = Some it) by (by rewrite <- Hparsers).
    rewrite (withParser_Some _ _ _ _ _ _ _ Hit), (withParser_Some _ _ _ _ _ _ _ Hit2).
    cbv zeta.
    assert (Hc : backendCall normInput target parserName e1 it
                 = backendCall normInput target parserName e2 it).
    { unfold backendCall, topicOf. by rewrite Htopics. }
    assert (Hp : parserAfter normInput target e1 it
                 = parserAfter normInput target e2 it).
    { unfold parserAfter, topicOf. by rewrite Htopics. }
    rewrite Hc. split; [done|].
    unfold afterCall. rewrite Hc, Hp.
    unfold sameMembers, sameSetup. simpl.
    by rewrite Htopics, Hparsers.
  - assert (Hit2 : m_parsers e2 !! parserName = None) by (by rewrite <- Hparsers).
    rewrite (withParser_None _ _ _ _ _ _ Hit), (withParser_None _ _ _ _ _ _ Hit2).
    done.
Qed.

Lemma getAll_on_prepared input target matches e :
  _getAllResponses rid input target matches e
  = _getAllResponses rid input target matches (prepared e).
Proof.
  unfold _getAllResponses. rewrite m_dirty_prepared.
  unfold prepared. by destruct (m_dirty e).
Qed.

Lemma getAll_sameMembers input target matches e1 e2 :
  sameMembers e1 e2 -> m_dirty e1 = false ->
  (_getAllResponses rid input target matches e1).1
  = (_getAllResponses rid input target matches e2).1
  /\ sameMembers (_getAllResponses rid input target matches e1).2
                 (_getAllResponses rid input target matches e2).2.
Proof.
  intros Hsame Hclean.
  assert (Hclean2 : m_dirty e2 = false).
  { destruct Hsame as (_ & _ & _ & <-). done. }
  assert (Hnorm : normalize e1 input = normalize e2 input).
  { destruct Hsame as ((Hpre & Hpost & Hlem & _) & _).
    unfold normalize. by rewrite Hpre, Hpost, Hlem. }
  unfold _getAllResponses. rewrite Hclean, Hclean2, Hnorm.
  destruct (withParser_sameMembers (qremove "&" (normalize e2 input)) target
              matches target e1 e2 Hsame) as [Hfst Hsnd].
  destruct (getAllResponsesWithParser rid _ target matches target e1)
    as [[responses1 matches1] e1'].
  destruct (getAllResponsesWithParser rid _ target matches target e2)
    as [[responses2 matches2] e2'].
  simpl in Hfst, Hsnd. injection Hfst as <- <-.
  destruct (bool_decide (responses1 = []) && negb (String.eqb target ANY_USER)).
  - by apply withParser_sameMembers.
  - done.
Qed.

Lemma prepared_setRules_sameMembers rules e1 e2 :
  sameSetup e1 e2 ->
  sameMembers (prepared (setRules rules e1)) (prepared (setRules rules e2)).
Proof.
  intros Hsetup.
  assert (Hsetup' : sameSetup (setRules rules e1) (setRules rules e2)) by done.
  unfold prepared. simpl. unfold sameMembers. simpl.
  repeat split; try apply Hsetup.
  by apply refreshAiml_ext.
Qed.

(** What a call leaves of the engine that it found once rebuilt: the rule
    set, a clear dirty flag and the same partitions. *)
Lemma getAll_preserves input target e :
  let e' := (_getAllResponses rid input target [] e).2 in
  m_rules e' = m_rules (prepared e)
  /\ m_dirty e' = false
  /\ forall t, is_Some (m_parsers e' !! t) <-> is_Some (m_parsers (prepared e) !! t).
Proof.
  pose proof (m_dirty_prepared e) as Hclean.
  assert (Hdom : forall normInput parserName e0 it t,
    m_parsers e0 !! parserName = Some it ->
    is_Some (m_parsers (afterCall normInput target parserName e0 it) !! t)
    <-> is_Some (m_parsers e0 !! t)).
  { intros normInput parserName e0 it t Hit. rewrite parsers_afterCall.
    destruct (decide (parserName = t)) as [<-|]; [|done].
    rewrite Hit. split; intros _; eauto. }
  destruct (getAll_cases rid input target e)
    as [(_ & _ & Hres)|[(it & H1 & _ & Hres)|[(_ & _ & it & H2 & Hres)
       |(it1 & it2 & H1 & Hne & H2 & _ & Hres)]]];
    cbv zeta in Hres; rewrite Hres; cbn [snd].
  - done.
  - split; [done|]. split; [done|]. intros t. by apply Hdom.
  - split; [done|]. split; [done|]. intros t. by apply Hdom.
  - split; [done|]. split; [done|]. intros t.
    rewrite Hdom, (Hdom _ target (prepared e) it1 t H1); [done|].
    rewrite parsers_afterCall. by destruct (decide (target = ANY_USER)).
Qed.

(** Calls on engines with the same members, once rebuilt, answer alike. *)
Lemma getResponse_sameMembers input target e1 e2 :
  sameMembers (prepared e1) (prepared e2) ->
  exists out matches e1' e2',
    getResponse rid input target e1 = Some (out, matches, e1')
    /\ getResponse rid input target e2 = Some (out, matches, e2')
    /\ sameMembers (prepared e1') (prepared e2').
Proof.
  intros Hsame.
  destruct (getAll_sameMembers input target [] (prepared e1) (prepared e2)
              Hsame (m_dirty_prepared _)) as [Hfst Hsnd].
  rewrite <- !getAll_on_prepared in Hfst, Hsnd.
  destruct (getResponse_total rid input target e1) as (out & matches & Hres).
  destruct (getAll_preserves input target e1) as (_ & Hclean1 & _).
  destruct (getAll_preserves input target e2) as (_ & Hclean2 & _).
  exists out, matches, (_getAllResponses rid input target [] e1).2,
    (_getAllResponses rid input target [] e2).2.
  split; [exact Hres|].
  rewrite !prepared_clean by done. split; [|exact Hsnd].
  unfold getResponse, getAllResponses in Hres |- *.
  destruct (_getAllResponses rid input target [] e1)
    as [[responses1 matches1] e1''].
  destruct (_getAllResponses rid input target [] e2)
    as [[responses2 matches2] e2''].
  simpl in Hfst. injection Hfst as <- <-.
  destruct matches1; [|destruct responses1]; simplify_eq; done.
Qed.

Lemma getResponse_seq_sameMembers calls : forall e1 e2,
  sameMembers (prepared e1) (prepared e2) ->
  getResponse_seq rid calls e1 = getResponse_seq rid calls e2.
Proof.
  induction calls as [|[input target] rest IH]; intros e1 e2 Hsame; [done|].
  destruct (getResponse_sameMembers input target e1 e2 Hsame)
    as (out & matches & e1' & e2' & H1 & H2 & Hsame').
  simpl. rewrite H1, H2. f_equal. by apply IH.
Qed.

(** C6 (as amended).  [setRules] stores the rule set and sets the dirty
    flag.  A [getResponse] that finds the dirty flag set rebuilds before it
    matches: it is the [getResponse] of the engine whose partitions are those
    of [refreshAiml], each the parser of the document built from the current
    rules, and whose dirty flag is clear.  The [getResponse] that follows
    [setRules] returns, and leaves the new rule set, a clear dirty flag and a
    partition for [ANY_USER] and for each target of a new rule, and no other.
    Nothing of the former rule set or of the former partitions shows in the
    calls that follow [setRules]: on two engines that differ in them only,
    every sequence of calls of [getResponse] returns the same outputs and the
    same match lists.  A [getResponse] that finds the dirty flag clear leaves
    the flag clear and every partition that it does not ask as it is. *)
Theorem rule_set_replacement (rules : RuleList) (input target : string)
                             (e : AimlEngine) :
  (m_rules (setRules rules e) = rules /\ m_dirty (setRules rules e) = true)
  /\ (forall e0, m_dirty e0 = true ->
         getResponse rid input target e0
         = getResponse rid input target (with_dirty false (refreshAiml e0)))
  /\ (forall t,
         m_parsers (refreshAiml (setRules rules e)) !! t
         = if bool_decide (t = ANY_USER
                           \/ Exists (fun rule => t ∈ rule_target rule) rules)
           then Some (AIMLParser_new (buildAiml (setRules rules e) t))
           else None)
  /\ (exists out matches e',
         getResponse rid input target (setRules rules e) = Some (out, matches, e')
         /\ m_rules e' = rules
         /\ m_dirty e' = false
         /\ forall t, is_Some (m_parsers e' !! t)
                      <-> t = ANY_USER
                          \/ Exists (fun rule => t ∈ rule_target rule) rules)
  /\ (forall e2 calls, sameSetup e e2 ->
         getResponse_seq rid calls (setRules rules e)
         = getResponse_seq rid calls (setRules rules e2))
  /\ (forall e0, m_dirty e0 = false ->
         exists out matches e',
           getResponse rid input target e0 = Some (out, matches, e')
           /\ m_dirty e' = false
           /\ forall t, t <> target -> t <> ANY_USER ->
                        m_parsers e' !! t = m_parsers e0 !! t).
Proof.
  pose proof (refreshAiml_lookup (setRules rules e)) as Hparsers.
  split; [done|]. split; [|split; [exact Hparsers|split; [|split]]].
  - intros e0 Hdirty. unfold getResponse, getAllResponses.
    rewrite getAll_on_prepared. unfold prepared. by rewrite Hdirty.
  - destruct (getResponse_total rid input target (setRules rules e))
      as (out & matches & Hres).
    exists out, matches, (_getAllResponses rid input target [] (setRules rules e)).2.
    split; [exact Hres|].
    destruct (getAll_preserves input target (setRules rules e))
      as (Hr & Hd & Hdom).
    split; [exact Hr|]. split; [exact Hd|].
    intros t. rewrite Hdom. unfold prepared. simpl.
    rewrite Hparsers. simpl. case_bool_decide as Hdec.
    + split; [done|eauto].
    + split; [by intros [? ?]|done].
  - intros e2 calls Hsetup. apply getResponse_seq_sameMembers.
    by apply prepared_setRules_sameMembers.
  - intros e0 Hclean.
    destruct (getResponse_total rid input target e0) as (out & matches & Hres).
    exists out, matches, (_getAllResponses rid input target [] e0).2.
    split; [exact Hres|].
    destruct (getAll_preserves input target e0) as (_ & Hd & _).
    split; [exact Hd|].
    intros t Ht Hany.
    destruct (getAll_cases rid input target e0)
      as [(_ & _ & Hcase)|[(it & _ & _ & Hcase)|[(_ & _ & it & _ & Hcase)
         |(it1 & it2 & _ & _ & _ & _ & Hcase)]]];
      cbv zeta in Hcase; rewrite Hcase; cbn [snd];
      rewrite ?parsers_afterCall, (prepared_clean _ Hclean);
      repeat (destruct (decide _); [congruence|]); done.
Qed.
End RuleSetReplacement.

(** An engine that has served the rule set of [ruleHello] and a new engine
    answer alike once both are given the rule set of [ruleBye]: the former
    answer to Hello is gone. *)
Lemma rule_set_replacement_witness :
  getResponse_seq RuleIdUnsigned [("Hello", ANY_USER); ("Bye", "bob")]
    (setRules [ruleBye] (prepared (engineOf [ruleHello])))
  = getResponse_seq RuleIdUnsigned [("Hello", ANY_USER); ("Bye", "bob")]
      (setRules [ruleBye] AimlEngine_new)
  /\ getResponse_seq RuleIdUnsigned [("Hello", ANY_USER); ("Bye", "bob")]
       (setRules [ruleBye] AimlEngine_new)
     = [Some ("", []); Some ("See you", [(4, 0)])]
  /\ getResponse RuleIdUnsigned "Hello" ANY_USER (engineOf [ruleHello])
     = getResponse RuleIdUnsigned "Hello" ANY_USER
         (with_dirty false (refreshAiml (engineOf [ruleHello])))
  /\ exists out matches e',
       getResponse RuleIdUnsigned "Hello" ANY_USER afterCars
       = Some (out, matches, e')
       /\ m_dirty e' = false
       /\ forall t, t <> ANY_USER -> t <> ANY_USER ->
                    m_parsers e' !! t = m_parsers afterCars !! t.
Proof.
  destruct (rule_set_replacement RuleIdUnsigned [ruleBye] "Hello" ANY_USER
              (prepared (engineOf [ruleHello])))
    as (_ & Hdirty & _ & _ & Hseq & Hclean).
  split; [|split; [|split]].
  - apply Hseq. repeat split; reflexivity.
  - vm_compute. reflexivity.
  - apply Hdirty. reflexivity.
  - apply Hclean. reflexivity.
Defined.

(** C6 as stated fails for the calls after the first: the second
    [getResponse] after [setRules] finds the dirty flag clear and does not
    rebuild; it runs on the parser that has answered the first call, which a
    rebuild would have replaced by a new one. *)
Lemma second_call_does_not_rebuild :
  m_rules afterCars = [ruleCars; ruleHello]
  /\ ~ (getResponse RuleIdUnsigned "Bye" ANY_USER afterCars
        = getResponse RuleIdUnsigned "Bye" ANY_USER
            (with_dirty false (refreshAiml afterCars))).
Proof.
  split; [reflexivity|].
  intros H.
  apply (f_equal (fun res => rp_that <$> (m_parsers (engineAfter res afterCars)
                                           !! ANY_USER))) in H.
  vm_compute in H. discriminate H.
Qed.

(** ** Properties of the engine *)

Section Properties.
Variable rid : RuleIdType.
Context {backend : AimlBackend}.

(** C7 (as amended).  For the property [NLP_PROP_PREFER_CUR_TOPIC], after
    [setProperty name v] a call of [property name] returns the boolean that
    [v] converts to, which is [v] itself when [v] is a boolean; the member
    behind it holds that boolean, and the dirty flag is set when the value
    changed and is left as it was otherwise, so that after a change the next
    [getResponse] matches on partitions rebuilt under the new value.  For
    every other name [setProperty] changes nothing and [property] returns an
    invalid variant. *)
Theorem property_get_after_set (value : QVariant) (e : AimlEngine) :
  property NLP_PROP_PREFER_CUR_TOPIC
    (setProperty NLP_PROP_PREFER_CUR_TOPIC value e)
  = QBool (toBool value)
  /\ (forall b, value = QBool b ->
         property NLP_PROP_PREFER_CUR_TOPIC
           (setProperty NLP_PROP_PREFER_CUR_TOPIC value e) = value)
  /\ m_setTopics (setProperty NLP_PROP_PREFER_CUR_TOPIC value e) = toBool value
  /\ m_dirty (setProperty NLP_PROP_PREFER_CUR_TOPIC value e)
     = m_dirty e || negb (Bool.eqb (toBool value) (m_setTopics e))
  /\ (toBool value <> m_setTopics e ->
      forall input target,
        getResponse rid input target
          (setProperty NLP_PROP_PREFER_CUR_TOPIC value e)
        = getResponse rid input target
            (with_dirty false
               (refreshAiml (setProperty NLP_PROP_PREFER_CUR_TOPIC value e))))
  /\ (forall name, name <> NLP_PROP_PREFER_CUR_TOPIC ->
         setProperty name value e = e /\ property name e = QInvalid).
Proof.
  assert (Hget : property NLP_PROP_PREFER_CUR_TOPIC
                   (setProperty NLP_PROP_PREFER_CUR_TOPIC value e)
                 = QBool (toBool value)).
  { unfold property, setProperty. rewrite String.eqb_refl.
    destruct (toBool value), (m_setTopics e) eqn:Hset; simpl; by rewrite ?Hset. }
  split; [exact Hget|]. split; [|split; [|split; [|split]]].
  - intros b ->. exact Hget.
  - unfold setProperty. rewrite String.eqb_refl.
    destruct (toBool value), (m_setTopics e) eqn:Hset; simpl; by rewrite ?Hset.
  - unfold setProperty. rewrite String.eqb_refl.
    destruct (toBool value), (m_setTopics e) eqn:Hset, (m_dirty e) eqn:Hd;
      simpl; by rewrite ?Hset, ?Hd.
  - intros Hchange input target.
    assert (Hdirty : m_dirty (setProperty NLP_PROP_PREFER_CUR_TOPIC value e) = true).
    { unfold setProperty. rewrite String.eqb_refl.
      destruct (toBool value), (m_setTopics e) eqn:Hset; simpl; try done;
        by rewrite ?Hset. }
    unfold getResponse, getAllResponses. rewrite getAll_on_prepared.
    unfold prepared. by rewrite Hdirty.
  - intros name Hne. unfold setProperty, property.
    destruct (String.eqb_spec name NLP_PROP_PREFER_CUR_TOPIC); done.
Qed.
End Properties.

(** Enabling the preference for the current topic on a new engine. *)
Lemma property_get_after_set_witness :
  property NLP_PROP_PREFER_CUR_TOPIC
    (setProperty NLP_PROP_PREFER_CUR_TOPIC (QBool true) AimlEngine_new)
  = QBool true
  /\ m_dirty (setProperty NLP_PROP_PREFER_CUR_TOPIC (QBool true) AimlEngine_new)
     = true
  /\ property "output-mode" AimlEngine_new = QInvalid.
Proof.
  destruct (property_get_after_set RuleIdUnsigned (QBool true) AimlEngine_new)
    as (_ & Hbool & _ & Hdirty & _ & Hother).
  split; [exact (Hbool true eq_refl)|].
  split; [rewrite Hdirty; reflexivity|].
  apply (Hother "output-mode"). discriminate.
Defined.

(** C7 as stated fails for the output mode: this engine has no such
    property, the value set is not returned. *)
Lemma output_mode_is_not_a_property :
  ~ (property "output-mode" (setProperty "output-mode" (QBool true) AimlEngine_new)
     = QBool true).
Proof. vm_compute. discriminate. Qed.

(** ** The loop guard *)

Section LoopGuardTermination.
Variable MAX_DEPTH : nat.
Variable matchRule : string -> option (Z * Z * LoopGuard.Output).

Lemma resolve_steps depth : forall input,
  ((LoopGuard.resolve matchRule depth input).2 <= depth)%nat.
Proof.
  induction depth as [|depth IH]; intros input; simpl; [lia|].
  destruct (matchRule input) as [[[ruleId inputIndex] [text|next_input]]|];
    simpl; try lia.
  specialize (IH next_input).
  destruct (LoopGuard.resolve matchRule depth next_input) as [res n].
  simpl in *. lia.
Qed.

Lemma resolve_resolves depth : forall input text,
  (LoopGuard.resolve matchRule depth input).1 = Some text ->
  LoopGuard.ResolvesWithin matchRule depth input text.
Proof.
  induction depth as [|depth IH]; intros input text; simpl; [done|].
  destruct (matchRule input) as [[[ruleId inputIndex] [text'|next_input]]|] eqn:Hm;
    simpl; try done.
  - intros [= ->]. by eapply LoopGuard.RW_final.
  - specialize (IH next_input text).
    destruct (LoopGuard.resolve matchRule depth next_input) as [res n].
    simpl in *. intros Hres. eapply LoopGuard.RW_redirect; eauto.
Qed.

Lemma resolve_cycle a b ra ka rb kb :
  matchRule a = Some (ra, ka, LoopGuard.Redirect b) ->
  matchRule b = Some (rb, kb, LoopGuard.Redirect a) ->
  forall depth,
    LoopGuard.resolve matchRule depth a = (None, depth)
    /\ LoopGuard.resolve matchRule depth b = (None, depth).
Proof.
  intros Ha Hb. induction depth as [|depth [IHa IHb]]; [done|].
  simpl. by rewrite Ha, Hb, IHa, IHb.
Qed.

(** C8.  A guarded call is a total function; it makes at most [MAX_DEPTH]
    submissions, whatever the rules are; when the chain of redirects from
    the input does not reach a non-redirecting output within [MAX_DEPTH]
    submissions, it returns the empty string and an empty match list; and
    so it does, after [MAX_DEPTH] submissions, for both inputs of two rules
    that redirect to each other. *)
Theorem loop_guard_termination :
  (forall input,
      ((LoopGuard.getResponse MAX_DEPTH matchRule input).2 <= MAX_DEPTH)%nat)
  /\ (forall input,
         (forall text,
             ~ LoopGuard.ResolvesWithin matchRule MAX_DEPTH input text) ->
         (LoopGuard.getResponse MAX_DEPTH matchRule input).1 = ("", []))
  /\ (forall a b ra ka rb kb,
         matchRule a = Some (ra, ka, LoopGuard.Redirect b) ->
         matchRule b = Some (rb, kb, LoopGuard.Redirect a) ->
         LoopGuard.getResponse MAX_DEPTH matchRule a = ("", [], MAX_DEPTH)
         /\ LoopGuard.getResponse MAX_DEPTH matchRule b = ("", [], MAX_DEPTH)).
Proof.
  split; [|split].
  - intros input. unfold LoopGuard.getResponse.
    pose proof (resolve_steps MAX_DEPTH input) as Hsteps.
    destruct (LoopGuard.resolve matchRule MAX_DEPTH input) as [[text|] n];
      [destruct (matchRule input) as [[[ruleId inputIndex] out]|]|]; exact Hsteps.
  - intros input Hnone. unfold LoopGuard.getResponse.
    pose proof (resolve_resolves MAX_DEPTH input) as Hres.
    destruct (LoopGuard.resolve matchRule MAX_DEPTH input) as [[text|] n];
      [|done].
    destruct (Hnone text (Hres text eq_refl)).
  - intros a b ra ka rb kb Ha Hb.
    destruct (resolve_cycle a b ra ka rb kb Ha Hb MAX_DEPTH) as [Hra Hrb].
    unfold LoopGuard.getResponse. by rewrite Hra, Hrb.
Qed.
End LoopGuardTermination.

(** Rule A redirects to rule B and rule B to rule A: with a bound of ten
    submissions both inputs come back unmatched after ten submissions. *)
Lemma loop_guard_termination_witness :
  LoopGuard.getResponse 10 (LoopGuard.matchRuleIn [LoopGuard.ruleA; LoopGuard.ruleB])
    "Hola" = ("", [], 10%nat)
  /\ LoopGuard.getResponse 10 (LoopGuard.matchRuleIn [LoopGuard.ruleA; LoopGuard.ruleB])
       "Simplemente hola" = ("", [], 10%nat).
Proof.
  apply (proj2 (proj2 (loop_guard_termination 10
           (LoopGuard.matchRuleIn [LoopGuard.ruleA; LoopGuard.ruleB]))))
    with (ra := 1) (ka := 0) (rb := 2) (kb := 0); reflexivity.
Defined.

(** * Further properties of the code *)

(** ** Further facts on the codec *)

Lemma lor_bound a b n :
  0 <= n -> 0 <= a < 2 ^ n -> 0 <= b < 2 ^ n -> 0 <= Z.lor a b < 2 ^ n.
Proof.
  intros Hn Ha Hb. split; [apply Z.lor_nonneg; lia|].
  destruct (Z.eq_dec a 0) as [->|Ha0]; [rewrite Z.lor_0_l; lia|].
  destruct (Z.eq_dec b 0) as [->|Hb0]; [rewrite Z.lor_0_r; lia|].
  apply Z.log2_lt_pow2; [apply Z.le_neq; split; [apply Z.lor_nonneg; lia|]|].
  - intros Heq. symmetry in Heq. apply Z.lor_eq_0_iff in Heq. lia.
  - rewrite Z.log2_lor by lia.
    apply Z.max_lub_lt; apply Z.log2_lt_pow2; lia.
Qed.

Lemma land_mask c : Z.land c INPUT_NUMBER_MASK = c mod 4096.
Proof.
  unfold INPUT_NUMBER_MASK. change 0xfff with (Z.ones 12).
  by rewrite Z.land_ones by lia.
Qed.

Lemma getInputNumber_mod c : getInputNumber c = c mod 4096.
Proof.
  unfold getInputNumber. rewrite land_mask.
  apply to_int_small. pose proof (Z.mod_pos_bound c 4096). lia.
Qed.

Lemma repack c :
  Z.lor (Z.shiftl (Z.shiftr c 12) 12) (c mod 4096) = c.
Proof.
  change 4096 with (2 ^ 12). rewrite <- Z.land_ones by lia.
  rewrite <- Z.ldiff_ones_r by lia. apply Z.lor_ldiff_and.
Qed.

(** X1.  What an input index beyond the twelve bits does.  For a rule id
    below [2^51] and any non-negative [int] as input index, the category id
    decodes to the index modulo 4096, and the bits of the index above the
    twelfth are or-ed into the rule id: the pair that comes back names
    another input, and another rule unless the rule id already has those
    bits. *)
Theorem index_bits_spill_into_rule_id (t : RuleIdType) (r k : Z) :
  0 <= r < 2 ^ 51 -> 0 <= k < 2 ^ 31 ->
  getRuleId t (getCategoryId r k) = Z.lor r (Z.shiftr k 12)
  /\ getInputNumber (getCategoryId r k) = k mod 4096.
Proof.
  intros Hr Hk.
  assert (Hcat : getCategoryId r k = Z.lor (Z.shiftl r 12) k).
  { unfold getCategoryId, INPUT_NUMBER_BITS.
    rewrite (to_long_small r) by lia.
    rewrite to_long_small; [done|].
    rewrite Z.shiftl_mul_pow2 by lia. lia. }
  assert (Hhigh : 0 <= Z.shiftr k 12 < 2 ^ 51).
  { rewrite Z.shiftr_div_pow2 by lia. split; [apply Z.div_pos; lia|].
    apply Z.div_lt_upper_bound; lia. }
  split.
  - unfold getRuleId, INPUT_NUMBER_BITS. rewrite Hcat.
    rewrite Z.shiftr_lor, Z.shiftr_shiftl_l by lia.
    replace (12 - 12) with 0 by lia. rewrite Z.shiftl_0_r.
    apply to_RuleId_small.
    pose proof (lor_bound r (Z.shiftr k 12) 51). lia.
  - rewrite getInputNumber_mod, Hcat.
    change 4096 with (2 ^ 12). rewrite <- !Z.land_ones by lia.
    rewrite Z.land_lor_distr_l. rewrite (Z.land_ones (Z.shiftl r 12)) by lia.
    rewrite Z.shiftl_mul_pow2 by lia. rewrite Z.mod_mul by lia.
    apply Z.lor_0_l.
Qed.

(** X2.  Decoding and encoding again gives the category id back: for every
    [long] when [RuleId] is signed, for every non-negative one when it is
    unsigned.  With the round trip of the other direction, category ids and
    pairs of a rule id below [2^51] and an index below 4096 correspond one to
    one. *)
Theorem decode_encode_roundtrip (t : RuleIdType) (c : Z) :
  - 2 ^ 63 <= c < 2 ^ 63 -> t = RuleIdSigned \/ 0 <= c ->
  getCategoryId (getRuleId t c) (getInputNumber c) = c.
Proof.
  intros Hc Ht.
  assert (Hr : - 2 ^ 51 <= Z.shiftr c 12 < 2 ^ 51).
  { rewrite Z.shiftr_div_pow2 by lia. split.
    - apply Z.div_le_lower_bound; lia.
    - apply Z.div_lt_upper_bound; lia. }
  assert (Hid : getRuleId t c = Z.shiftr c 12).
  { unfold getRuleId, INPUT_NUMBER_BITS. destruct Ht as [->|Hpos]; simpl.
    - apply to_long_small; lia.
    - apply to_RuleId_small. split; [|lia].
      rewrite Z.shiftr_div_pow2 by lia. apply Z.div_pos; lia. }
  rewrite Hid, getInputNumber_mod.
  unfold getCategoryId, INPUT_NUMBER_BITS.
  rewrite (to_long_small (Z.shiftr c 12)) by lia.
  rewrite to_long_small; [apply repack|].
  rewrite Z.shiftl_mul_pow2 by lia. lia.
Qed.

(** X3.  [convert] reports one match at most: that of the last category id
    of the list, whatever precedes it; and the input index that it reports
    lies in [0, 4096), whatever the backend returned. *)
Theorem convert_reports_last (t : RuleIdType) (categoriesId : list Z) :
  (categoriesId = [] -> convert t categoriesId = [])
  /\ (forall front catId,
        categoriesId = (front ++ [catId])%list ->
        convert t categoriesId = [(getRuleId t catId, getInputNumber catId)])
  /\ (length (convert t categoriesId) <= 1)%nat
  /\ (forall ruleId inputNumber,
        (ruleId, inputNumber) ∈ convert t categoriesId ->
        0 <= inputNumber < 4096).
Proof.
  split; [by intros ->|]. split.
  - intros front catId ->. unfold convert. by rewrite last_snoc.
  - unfold convert. destruct (last categoriesId) as [catId|]; simpl.
    + split; [lia|]. intros ruleId inputNumber Hin.
      apply list_elem_of_singleton in Hin. injection Hin as _ ->.
      rewrite getInputNumber_mod. apply Z.mod_pos_bound. lia.
    + split; [lia|]. by intros ? ? ?%elem_of_nil.
Qed.

(** ** Further facts on the strings of a document *)

Lemma amp_app (x : string) :
  "&amp;" +:+ x = String "&" (String "a" (String "m" (String "p" (String ";" x)))).
Proof. reflexivity. Qed.

Lemma escape_cons a s :
  escape (String a s)
  = if Ascii.eqb a "&" then "&amp;" +:+ escape s else String a (escape s).
Proof. reflexivity. Qed.

Lemma escape_app (a b : string) : escape (a +:+ b) = escape a +:+ escape b.
Proof.
  induction a as [|x a IH]; [reflexivity|].
  change (String x a +:+ b) with (String x (a +:+ b)).
  rewrite !escape_cons, IH. destruct (Ascii.eqb x "&").
  - by rewrite append_assoc.
  - reflexivity.
Qed.

(** X4.  [escape] loses nothing: two strings with the same escaped form are
    the same string, so two rule inputs with different normal forms never get
    the same pattern text. *)
Theorem escape_injective (s1 s2 : string) :
  escape s1 = escape s2 -> s1 = s2.
Proof.
  revert s2. induction s1 as [|a1 s1 IH]; intros [|a2 s2].
  - done.
  - rewrite escape_cons. destruct (Ascii.eqb a2 "&"); [rewrite amp_app|]; done.
  - rewrite escape_cons. destruct (Ascii.eqb a1 "&"); [rewrite amp_app|]; done.
  - rewrite !escape_cons.
    destruct (Ascii.eqb a1 "&") eqn:H1, (Ascii.eqb a2 "&") eqn:H2;
      rewrite ?amp_app; intros Heq.
    + apply Ascii.eqb_eq in H1, H2. subst.
      injection Heq as Heq. f_equal. by apply IH.
    + injection Heq as <- _. by rewrite Ascii.eqb_refl in H2.
    + injection Heq as -> _. by rewrite Ascii.eqb_refl in H1.
    + injection Heq as -> Heq. f_equal. by apply IH.
Qed.


Lemma fold_left_li (output : list string) (aiml : string) :
  fold_left (fun aiml o => aiml +:+ "<li>" +:+ o +:+ "</li>") output aiml
  = aiml +:+ concat_strings ((fun o => "<li>" +:+ o +:+ "</li>") <$> output).
Proof.
  revert aiml. induction output as [|o output IH]; intros aiml.
  - simpl. by rewrite append_nil_r.
  - cbn [fold_left]. rewrite IH.
    change (concat_strings ((fun o => "<li>" +:+ o +:+ "</li>") <$> o :: output))
      with (("<li>" +:+ o +:+ "</li>")
            +:+ concat_strings ((fun o => "<li>" +:+ o +:+ "</li>") <$> output)).
    by rewrite !append_assoc.
Qed.

Lemma escape_li (output : list string) :
  escape (concat_strings ((fun o => "<li>" +:+ o +:+ "</li>") <$> output))
  = concat_strings ((fun o => "<li>" +:+ o +:+ "</li>") <$> (escape <$> output)).
Proof.
  induction output as [|o output IH]; [reflexivity|].
  change (escape (("<li>" +:+ o +:+ "</li>")
                  +:+ concat_strings
                        ((fun o => "<li>" +:+ o +:+ "</li>") <$> output))
          = ("<li>" +:+ escape o +:+ "</li>")
            +:+ concat_strings
                  ((fun o => "<li>" +:+ o +:+ "</li>") <$> (escape <$> output))).
  rewrite !escape_app, IH. reflexivity.
Qed.

(** X5.  The template text of a rule.  No output gives the empty text and
    one output gives that output as it is; two or more give one [random]
    element with one [li] element for each output, in the order of the rule.
    Escaping the assembled text, as [buildAiml] does, is assembling the
    escaped outputs: the tags of the engine come through, and so does any
    markup that an output brings along. *)
Theorem random_output_assembly (output : list string) :
  (forall o1 o2 rest,
     output = o1 :: o2 :: rest ->
     buildAimlRandOutput output
     = "<random>"
       +:+ concat_strings ((fun o => "<li>" +:+ o +:+ "</li>") <$> output)
       +:+ "</random>")
  /\ ((length output <= 1)%nat ->
      buildAimlRandOutput output = concat_strings output)
  /\ escape (buildAimlRandOutput output)
     = buildAimlRandOutput (escape <$> output).
Proof.
  assert (Hfold : forall o1 o2 rest,
    buildAimlRandOutput (o1 :: o2 :: rest)
    = "<random>"
      +:+ concat_strings
            ((fun o => "<li>" +:+ o +:+ "</li>") <$> o1 :: o2 :: rest)
      +:+ "</random>").
  { intros o1 o2 rest. unfold buildAimlRandOutput.
    by rewrite fold_left_li. }
  split; [by intros o1 o2 rest ->|]. split.
  - destruct output as [|o1 [|o2 rest]]; simpl; [done| |lia].
    intros _. by rewrite append_nil_r.
  - destruct output as [|o1 [|o2 rest]]; [done|done|].
    change (escape <$> o1 :: o2 :: rest)
      with (escape o1 :: escape o2 :: (escape <$> rest)).
    rewrite !Hfold, !escape_app, escape_li. reflexivity.
Qed.

(** ** Further facts on the engine *)

Section FurtherEngineFacts.
Variable rid : RuleIdType.
Context {backend : AimlBackend}.

Lemma occurs_qremove c s : occurs c (qremove c s) = false.
Proof.
  induction s as [|a s IH]; simpl; [done|].
  destruct (Ascii.eqb a c) eqn:Hac; simpl; [done|]. by rewrite Hac.
Qed.

Lemma qremove_absent c s : occurs c s = false -> qremove c s = s.
Proof.
  induction s as [|a s IH]; simpl; [done|].
  destruct (Ascii.eqb a c); simpl; [done|]. intros H. by rewrite IH.
Qed.

(** [_getAllResponses] on any match list, in terms of its two queries. *)
Lemma getAll_unfold input target matches e :
  _getAllResponses rid input target matches e
  = let e1 := prepared e in
    let norm := normInputOf e1 input in
    let first := getAllResponsesWithParser rid norm target matches target e1 in
    if bool_decide (first.1.1 = []) && negb (String.eqb target ANY_USER)
    then getAllResponsesWithParser rid norm target first.1.2 ANY_USER first.2
    else first.
Proof.
  unfold _getAllResponses, prepared, normInputOf.
  destruct (m_dirty e); cbv zeta;
    by destruct (getAllResponsesWithParser _ _ _ _ _ _) as [[? ?] ?].
Qed.

Lemma withParser_shape normInput target matches parserName e :
  let r := getAllResponsesWithParser rid normInput target matches parserName e in
  (r.1.1 = [] /\ r.1.2 = matches)
  \/ (exists response pair, r.1.1 = [response] /\ response <> ""
                            /\ r.1.2 = [pair]).
Proof.
  destruct (m_parsers e !! parserName) as [it|] eqn:Hit.
  - rewrite (withParser_Some _ _ _ _ _ _ _ Hit). cbv zeta. simpl.
    unfold responsesOf.
    destruct (callAccepted _) eqn:Hacc; [|by left].
    right. apply callAccepted_true in Hacc as (Hne & _ & Hlen).
    pose proof (convert_length rid _ Hlen) as Hone.
    destruct (convert rid _) as [|pair [|? ?]]; simpl in Hone; try lia.
    eauto.
  - rewrite (withParser_None _ _ _ _ _ _ Hit). by left.
Qed.

(** What [getResponse] sees of [_getAllResponses]: nothing, or one
    response that is not empty and one pair. *)
Lemma getAll_shape input target e :
  let r := _getAllResponses rid input target [] e in
  (r.1.1 = [] /\ r.1.2 = [])
  \/ (exists response pair, r.1.1 = [response] /\ response <> ""
                            /\ r.1.2 = [pair]).
Proof.
  destruct (getAll_cases rid input target e)
    as [(_ & _ & Hr)|[(it & _ & _ & Hr)|[(_ & _ & it & _ & Hr)
       |(it1 & it2 & _ & _ & _ & _ & Hr)]]]; cbv zeta in Hr; rewrite Hr;
    cbn [fst snd]; try (by left);
    match goal with
    | |- context [responsesOf ?c] =>
        unfold responsesOf, matchesOf; destruct (callAccepted c) eqn:Hacc
    end; try (by left);
    right; apply callAccepted_true in Hacc as (Hne & _ & Hlen);
    pose proof (convert_length rid _ Hlen) as Hone;
    destruct (convert rid _) as [|pair [|? ?]]; simpl in Hone; try lia; eauto.
Qed.

Lemma getResponse_shape input target e :
  exists out matches,
    getResponse rid input target e
    = Some (out, matches, (_getAllResponses rid input target [] e).2)
    /\ ((out = "" /\ matches = [])
        \/ (out <> "" /\ exists pair, matches = [pair])).
Proof.
  unfold getResponse, getAllResponses.
  destruct (getAll_shape input target e) as [[Hnil Hm]|Hone].
  - destruct (_getAllResponses rid input target [] e) as [[responses ms] e'].
    simpl in *. subst. eexists _, _. split; [reflexivity|]. by left.
  - destruct Hone as (response & pair & Hr & Hne & Hm).
    destruct (_getAllResponses rid input target [] e) as [[responses ms] e'].
    simpl in *. subst. eexists _, _. split; [reflexivity|]. right. eauto.
Qed.

(** X6.  [getAllResponses], despite its name, returns at most one response;
    when it returns none, the match list of the caller comes back as it was
    passed, stale entries included; when it returns one, that response is not
    empty and the match list holds exactly one pair. *)
Theorem getAllResponses_at_most_one (input target : string)
                                    (matches : MatchList) (e : AimlEngine) :
  let r := getAllResponses rid input target matches e in
  (r.1.1 = [] /\ r.1.2 = matches)
  \/ (exists response pair, r.1.1 = [response] /\ response <> ""
                            /\ r.1.2 = [pair]).
Proof.
  unfold getAllResponses. rewrite getAll_unfold. cbv zeta.
  destruct (withParser_shape (normInputOf (prepared e) input) target matches
              target (prepared e)) as [[Hnil Hm]|Hone].
  - rewrite Hnil, Hm.
    rewrite (bool_decide_eq_true_2 (@nil string = [])) by done. simpl.
    destruct (negb (String.eqb target ANY_USER)).
    + apply withParser_shape.
    + left. by rewrite Hnil, Hm.
  - destruct Hone as (response & pair & Hr & Hne & Hm).
    rewrite Hr. rewrite bool_decide_eq_false_2 by done. simpl.
    right. eauto.
Qed.

(** X7.  A constructed engine that has been given nothing yet answers every
    input, for every target, with the empty string and no match; it calls no
    backend, builds no partition and stays as it is. *)
Theorem new_engine_is_silent (preSanitizer lemmatizer postSanitizer
                              : string -> string) (input target : string) :
  let e := AimlEngine_new3 preSanitizer lemmatizer postSanitizer in
  getResponse rid input target e = Some ("", [], e)
  /\ newCalls rid input target e = []
  /\ forall n, getResponse_n rid n input target e = replicate n (Some ("", [])).
Proof.
  intros e.
  assert (Hres : getResponse rid input target e = Some ("", [], e)).
  { apply getResponse_nocall. rewrite getAll_unfold. cbv zeta.
    rewrite !withParser_None by done. simpl.
    rewrite ?withParser_None by done. by destruct (negb _). }
  split; [exact Hres|]. split.
  - destruct (newCalls_cases rid input target e)
      as [(_ & _ & _ & Hn)|[(it & H1 & _)|[(_ & _ & it & H2 & _)
         |(it1 & it2 & H1 & _)]]]; done.
  - induction n as [|n IH]; [done|]. simpl. by rewrite Hres, IH.
Qed.

Lemma call_input_backendCall normInput target parserName e it :
  call_input (backendCall normInput target parserName e it) = normInput
  /\ call_parser (backendCall normInput target parserName e it) = parserName
  /\ call_topic (backendCall normInput target parserName e it) = topicOf e target.
Proof. done. Qed.

(** X8.  One [getResponse] calls the backend at most twice, and at most once
    for the target [ANY_USER]; every call goes to the partition of the target
    or to the any-target partition, and receives the same text: the input
    normalized by the collaborators of the engine, which holds no
    ampersand. *)
Theorem backend_calls_bounded (input target : string) (e : AimlEngine) :
  (length (newCalls rid input target e) <= 2)%nat
  /\ (target = ANY_USER -> (length (newCalls rid input target e) <= 1)%nat)
  /\ forall c, c ∈ newCalls rid input target e ->
        (call_parser c = target \/ call_parser c = ANY_USER)
        /\ call_input c
           = qremove "&"
               (m_postSanitizer e (m_lemmatizer e (m_preSanitizer e input)))
        /\ occurs "&" (call_input c) = false.
Proof.
  assert (Hnorm : normInputOf (prepared e) input
                  = qremove "&"
                      (m_postSanitizer e (m_lemmatizer e (m_preSanitizer e input)))).
  { unfold normInputOf, normalize, prepared. by destruct (m_dirty e). }
  assert (Hin : forall parserName e0 it,
    parserName = target \/ parserName = ANY_USER ->
    let c := backendCall (normInputOf (prepared e) input) target parserName e0 it in
    (call_parser c = target \/ call_parser c = ANY_USER)
    /\ call_input c
       = qremove "&"
           (m_postSanitizer e (m_lemmatizer e (m_preSanitizer e input)))
    /\ occurs "&" (call_input c) = false).
  { intros parserName e0 it Hname c.
    destruct (call_input_backendCall (normInputOf (prepared e) input) target
                parserName e0 it) as (Hi & Hp & _).
    fold c in Hi, Hp. rewrite Hi, Hp, Hnorm.
    split; [done|]. split; [done|]. apply occurs_qremove. }
  destruct (newCalls_cases rid input target e)
    as [(_ & _ & _ & Hn)|[(it & _ & _ & _ & Hn)|[(_ & Hne & it & _ & _ & Hn)
       |(it1 & it2 & _ & Hne & _ & _ & _ & Hn)]]]; rewrite Hn; simpl.
  - split; [lia|]. split; [lia|]. by intros c ?%elem_of_nil.
  - split; [lia|]. split; [lia|].
    intros c ->%list_elem_of_singleton. apply Hin. by left.
  - split; [lia|]. split; [lia|].
    intros c ->%list_elem_of_singleton. apply Hin. by right.
  - split; [lia|]. split; [done|].
    intros c Hc. apply elem_of_cons in Hc as [->|Hc].
    + apply Hin. by right.
    + apply list_elem_of_singleton in Hc as ->. apply Hin. by left.
Qed.

(** X9.  [getResponse] returns and changes neither the rule set, nor the
    collaborators, nor the preference for the current topic, and it leaves
    the dirty flag clear and the record of the partitions with the keys that
    the rebuilt engine has. *)
Theorem getResponse_keeps_configuration (input target : string)
                                        (e : AimlEngine) :
  exists out matches e',
    getResponse rid input target e = Some (out, matches, e')
    /\ m_rules e' = m_rules e
    /\ m_preSanitizer e' = m_preSanitizer e
    /\ m_lemmatizer e' = m_lemmatizer e
    /\ m_postSanitizer e' = m_postSanitizer e
    /\ m_setTopics e' = m_setTopics e
    /\ m_dirty e' = false
    /\ (forall name, property name e' = property name e).
Proof.
  destruct (getResponse_total rid input target e) as (out & matches & Hres).
  exists out, matches, (_getAllResponses rid input target [] e).2.
  split; [exact Hres|].
  assert (Hprep : m_rules (prepared e) = m_rules e
                  /\ m_preSanitizer (prepared e) = m_preSanitizer e
                  /\ m_lemmatizer (prepared e) = m_lemmatizer e
                  /\ m_postSanitizer (prepared e) = m_postSanitizer e
                  /\ m_setTopics (prepared e) = m_setTopics e).
  { unfold prepared. by destruct (m_dirty e). }
  destruct Hprep as (Hr & Hpre & Hlem & Hpost & Hset).
  pose proof (m_dirty_prepared e) as Hclean.
  assert (Hall : m_rules (_getAllResponses rid input target [] e).2 = m_rules e
     /\ m_preSanitizer (_getAllResponses rid input target [] e).2 = m_preSanitizer e
     /\ m_lemmatizer (_getAllResponses rid input target [] e).2 = m_lemmatizer e
     /\ m_postSanitizer (_getAllResponses rid input target [] e).2 = m_postSanitizer e
     /\ m_setTopics (_getAllResponses rid input target [] e).2 = m_setTopics e
     /\ m_dirty (_getAllResponses rid input target [] e).2 = false).
  { destruct (getAll_cases rid input target e)
      as [(_ & _ & Hcase)|[(it & _ & _ & Hcase)|[(_ & _ & it & _ & Hcase)
         |(it1 & it2 & _ & _ & _ & _ & Hcase)]]];
      cbv zeta in Hcase; rewrite Hcase; cbn [snd]; simpl;
      by rewrite ?Hr, ?Hpre, ?Hlem, ?Hpost, ?Hset, ?Hclean. }
  destruct Hall as (H1 & H2 & H3 & H4 & H5 & H6).
  repeat split; try done.
  intros name. unfold property. by rewrite H5.
Qed.

Lemma escape_absent s : occurs "&" s = false -> escape s = s.
Proof.
  unfold escape. induction s as [|a s IH]; simpl; [done|].
  destruct (Ascii.eqb a "&"); simpl; [done|]. intros H. by rewrite IH.
Qed.

Lemma occurs_escape s : occurs "&" (escape s) = occurs "&" s.
Proof.
  unfold escape. induction s as [|a s IH]; simpl; [done|].
  destruct (Ascii.eqb a "&") eqn:Ha; simpl; [done|]. by rewrite Ha, IH.
Qed.

(** X10.  Patterns and inputs go through the same normalization.  When the
    normal form of a rule input (trimmed) holds no ampersand, the text of the
    pattern element that [buildAiml] writes for it is the very text that the
    backend receives when a user types that input; when it holds one, the
    pattern text holds an ampersand too, while no text that the backend
    receives as input ever does. *)
Theorem pattern_agrees_with_input (e : AimlEngine) (rule : Rule) (k : Z)
                                  (input_k : string) :
  (occurs "&" (normalize e (trimmed input_k)) = false ->
   exists rest,
     buildCategory e rule k input_k
     = "<category><id>" +:+ qnumber (getCategoryId (rule_id rule) k)
       +:+ "</id><pattern>" +:+ normInputOf e (trimmed input_k)
       +:+ "</pattern>" +:+ rest)
  /\ (occurs "&" (normalize e (trimmed input_k)) = true ->
      forall input, escape (normalize e (trimmed input_k)) <> normInputOf e input).
Proof.
  split.
  - intros Habsent. unfold buildCategory, normInputOf.
    rewrite (escape_absent _ Habsent), (qremove_absent _ _ Habsent).
    eexists. reflexivity.
  - intros Hpresent input Heq.
    apply (f_equal (occurs "&")) in Heq.
    unfold normInputOf in Heq.
    rewrite occurs_escape, occurs_qremove, Hpresent in Heq. discriminate.
Qed.

Lemma refreshRules_ext e1 e2 rules parsers :
  (forall t, buildAiml e1 t = buildAiml e2 t) ->
  refreshRules e1 rules parsers = refreshRules e2 rules parsers.
Proof.
  intros Hdoc. apply map_eq. intros t.
  by rewrite !refreshRules_lookup, Hdoc.
Qed.

Lemma sameSetup_with_parsers parsers e : sameSetup (with_parsers parsers e) e.
Proof. done. Qed.

(** X11.  A rebuild forgets the former partitions and is repeatable: the
    partitions that [refreshAiml] builds do not depend on the partitions that
    it finds, and rebuilding twice is rebuilding once. *)
Theorem refreshAiml_idempotent (e : AimlEngine) :
  (forall parsers,
      m_parsers (refreshAiml (with_parsers parsers e)) = m_parsers (refreshAiml e))
  /\ refreshAiml (refreshAiml e) = refreshAiml e.
Proof.
  assert (Hforget : forall parsers,
    m_parsers (refreshAiml (with_parsers parsers e)) = m_parsers (refreshAiml e)).
  { intros parsers. apply refreshAiml_ext; [apply sameSetup_with_parsers|done]. }
  split; [exact Hforget|].
  unfold refreshAiml at 1 3.
  specialize (Hforget (refreshRules e (m_rules e)
                         (<[ANY_USER:=AIMLParser_new (buildAiml e ANY_USER)]> ∅))).
  unfold refreshAiml in Hforget at 1. simpl in Hforget.
  fold (refreshAiml e). fold (refreshAiml e) in Hforget.
  unfold with_parsers. simpl. by rewrite Hforget.
Qed.

Lemma prepared_dirty_sameMembers e1 e2 :
  sameSetup e1 e2 -> m_rules e1 = m_rules e2 ->
  m_dirty e1 = true -> m_dirty e2 = true ->
  sameMembers (prepared e1) (prepared e2).
Proof.
  intros Hsetup Hrules Hd1 Hd2. unfold prepared. rewrite Hd1, Hd2.
  unfold sameMembers. simpl.
  repeat split; try apply Hsetup; try done.
  by apply refreshAiml_ext.
Qed.

(** X12.  Replacing a collaborator never leaves patterns of the former one
    behind.  [setPreSanitizer], [setLemmatizer] and [setPostSanitizer] set
    the dirty flag, and on two engines that have the same rules, the same
    tracked topics, the same topic mode and the same other collaborators but
    differ in the collaborator replaced and in their partitions, every
    sequence of calls of [getResponse] that follows returns the same outputs
    and match lists. *)
Theorem collaborator_replacement (replacement : option (string -> string))
    (e1 e2 : AimlEngine) (calls : list (string * string)) :
  m_rules e1 = m_rules e2 -> m_topics e1 = m_topics e2 ->
  m_setTopics e1 = m_setTopics e2 ->
  (m_lemmatizer e1 = m_lemmatizer e2 -> m_postSanitizer e1 = m_postSanitizer e2 ->
   getResponse_seq rid calls (setPreSanitizer replacement e1)
   = getResponse_seq rid calls (setPreSanitizer replacement e2))
  /\ (m_preSanitizer e1 = m_preSanitizer e2 -> m_postSanitizer e1 = m_postSanitizer e2 ->
      getResponse_seq rid calls (setLemmatizer replacement e1)
      = getResponse_seq rid calls (setLemmatizer replacement e2))
  /\ (m_preSanitizer e1 = m_preSanitizer e2 -> m_lemmatizer e1 = m_lemmatizer e2 ->
      getResponse_seq rid calls (setPostSanitizer replacement e1)
      = getResponse_seq rid calls (setPostSanitizer replacement e2)).
Proof.
  intros Hrules Htopics Hset.
  split; [|split]; intros Ha Hb;
    apply getResponse_seq_sameMembers, prepared_dirty_sameMembers;
    try done; unfold sameSetup; simpl; by rewrite ?Ha, ?Hb, ?Htopics, ?Hset.
Qed.

Lemma first_call_topic input target e c :
  last (newCalls rid input target e) = Some c ->
  call_topic c = topicOf e target.
Proof.
  pose proof (topicOf_prepared e target) as Htop.
  destruct (newCalls_cases rid input target e)
    as [(_ & _ & _ & Hn)|[(it & _ & _ & _ & Hn)|[(_ & _ & it & _ & _ & Hn)
       |(it1 & it2 & _ & _ & _ & _ & _ & Hn)]]]; rewrite Hn; simpl;
    intros [= <-]; exact Htop.
Qed.

(** X13.  Reconfiguring the engine does not reset the conversation.  After
    [setRules], [setProperty], [setPreSanitizer], [setLemmatizer] or
    [setPostSanitizer], the first backend call of the next [getResponse] for
    a partner still receives the topic that was tracked for that partner
    before the operation. *)
Theorem topic_survives_reconfiguration (op : Op) (e : AimlEngine)
                                       (input target : string) :
  op <> OpClear -> (forall i t, op <> OpGetResponse i t) ->
  forall c, last (newCalls rid input target (runOp rid op e)) = Some c ->
            call_topic c = topicOf e target.
Proof.
  intros Hclear Hget c Hc. rewrite (first_call_topic _ _ _ _ Hc).
  destruct op as [rules|name value|s|l|s| |i t]; simpl; try done.
  - unfold setProperty, topicOf.
    destruct (String.eqb name NLP_PROP_PREFER_CUR_TOPIC); [|done].
    destruct (toBool value), (m_setTopics e) eqn:Hset; simpl; by rewrite ?Hset.
  - by destruct (Hget i t).
Qed.

Lemma parsers_prepared_clear e t :
  m_parsers (prepared (clear e)) !! t
  = if decide (t = ANY_USER)
    then Some (AIMLParser_new (aimlHeader +:+ "</aiml>")) else None.
Proof.
  assert (Hprep : m_parsers (prepared (clear e))
                  = m_parsers (refreshAiml (clear e))) by done.
  rewrite Hprep, refreshAiml_lookup.
  assert (Hdoc : buildAiml (clear e) t = aimlHeader +:+ "</aiml>") by done.
  rewrite Hdoc.
  destruct (decide (t = ANY_USER)) as [->|Hne].
  - by rewrite bool_decide_eq_true_2 by (by left).
  - rewrite bool_decide_eq_false_2; [done|].
    intros [?|H%Exists_nil]; done.
Qed.

(** X14.  [clear] forgets the rules, the partitions and every tracked topic,
    and keeps the collaborators and the preference for the current topic.
    The [getResponse] that follows rebuilds: it leaves exactly one
    partition, the any-target one, built from a document without any
    category, and every backend call it makes goes to that partition with an
    empty topic. *)
Theorem clear_forgets (e : AimlEngine) (input target : string) :
  (rules (clear e) = [] /\ m_parsers (clear e) = ∅ /\ m_topics (clear e) = ∅)
  /\ (forall name, property name (clear e) = property name e)
  /\ (forall s, normalize (clear e) s = normalize e s)
  /\ (forall t, buildAiml (clear e) t = aimlHeader +:+ "</aiml>")
  /\ exists out matches e',
       getResponse rid input target (clear e) = Some (out, matches, e')
       /\ (forall t, is_Some (m_parsers e' !! t) <-> t = ANY_USER)
       /\ forall c, c ∈ newCalls rid input target (clear e) ->
                    call_parser c = ANY_USER /\ call_topic c = "".
Proof.
  split; [done|]. split; [done|]. split; [done|]. split; [done|].
  destruct (getResponse_total rid input target (clear e)) as (out & matches & Hres).
  exists out, matches, (_getAllResponses rid input target [] (clear e)).2.
  split; [exact Hres|]. split.
  - intros t. destruct (getAll_preserves rid input target (clear e)) as (_ & _ & Hdom).
    rewrite Hdom, parsers_prepared_clear.
    destruct (decide (t = ANY_USER)) as [->|Hne].
    + split; [done|eauto].
    + split; [by intros [? ?]|done].
  - assert (Htopic : forall name it,
      call_topic (backendCall (normInputOf (prepared (clear e)) input) target
                    name (prepared (clear e)) it) = "") by done.
    intros c Hc.
    destruct (newCalls_cases rid input target (clear e))
      as [(_ & _ & _ & Hn)|[(it & H1 & _ & _ & Hn)|[(_ & _ & it & _ & _ & Hn)
         |(it1 & it2 & H1 & Hne & _)]]].
    + rewrite Hn in Hc. by apply elem_of_nil in Hc.
    + rewrite Hn in Hc. apply list_elem_of_singleton in Hc as ->.
      rewrite parsers_prepared_clear in H1.
      destruct (decide (target = ANY_USER)) as [->|]; done.
    + rewrite Hn in Hc. by apply list_elem_of_singleton in Hc as ->.
    + rewrite parsers_prepared_clear in H1.
      destruct (decide (target = ANY_USER)); done.
Qed.

(** *** The partitions are never stale *)

Lemma buildAiml_config e1 e2 t :
  m_rules e1 = m_rules e2 ->
  m_preSanitizer e1 = m_preSanitizer e2 ->
  m_lemmatizer e1 = m_lemmatizer e2 ->
  m_postSanitizer e1 = m_postSanitizer e2 ->
  m_setTopics e1 = m_setTopics e2 ->
  buildAiml e1 t = buildAiml e2 t.
Proof.
  intros Hrules Hpre Hlem Hpost Hset.
  rewrite !buildAiml_entries, Hrules. do 3 f_equal.
  apply list_fmap_ext. intros _ rule _. unfold ruleEntries. f_equal.
  apply imap_ext. intros k input_k _.
  unfold buildEntry, buildCategory, normalize.
  by rewrite Hpre, Hlem, Hpost, Hset.
Qed.

(** Every partition of [e] is for [ANY_USER] or for a target of a rule, and
    its parser stems from the document that [buildAiml] writes now. *)
Lemma fresh_prepared e (fresh : AimlEngine -> Prop) :
  (forall e0, fresh e0 <->
     forall t p, m_parsers e0 !! t = Some p ->
       (t = ANY_USER \/ Exists (fun rule => t ∈ rule_target rule) (m_rules e0))
       /\ ParserFrom (AIMLParser_new (buildAiml e0 t)) p) ->
  m_dirty e = true \/ fresh e -> fresh (prepared e).
Proof.
  intros Hfresh [Hdirty|Hok]; unfold prepared.
  - rewrite Hdirty. apply Hfresh. intros t p Hlk.
    assert (Hlk' : m_parsers (refreshAiml e) !! t = Some p) by exact Hlk.
    rewrite refreshAiml_lookup in Hlk'.
    assert (Hdoc : buildAiml (with_dirty false (refreshAiml e)) t = buildAiml e t)
      by (by apply buildAiml_config).
    rewrite Hdoc.
    case_bool_decide as Hin; [|done]. injection Hlk' as <-.
    split; [exact Hin|constructor].
  - destruct (m_dirty e); [|done].
    apply Hfresh. intros t p Hlk.
    assert (Hlk' : m_parsers (refreshAiml e) !! t = Some p) by exact Hlk.
    rewrite refreshAiml_lookup in Hlk'.
    assert (Hdoc : buildAiml (with_dirty false (refreshAiml e)) t = buildAiml e t)
      by (by apply buildAiml_config).
    rewrite Hdoc.
    case_bool_decide as Hin; [|done]. injection Hlk' as <-.
    split; [exact Hin|constructor].
Qed.

Lemma fresh_afterCall normInput target parserName e it :
  m_parsers e !! parserName = Some it ->
  (forall t p, m_parsers e !! t = Some p ->
     (t = ANY_USER \/ Exists (fun rule => t ∈ rule_target rule) (m_rules e))
     /\ ParserFrom (AIMLParser_new (buildAiml e t)) p) ->
  forall t p,
    m_parsers (afterCall normInput target parserName e it) !! t = Some p ->
    (t = ANY_USER
     \/ Exists (fun rule => t ∈ rule_target rule)
          (m_rules (afterCall normInput target parserName e it)))
    /\ ParserFrom
         (AIMLParser_new (buildAiml (afterCall normInput target parserName e it) t))
         p.
Proof.
  intros Hit Hok t p Hlk.
  assert (Hdoc : buildAiml (afterCall normInput target parserName e it) t
                 = buildAiml e t) by (by apply buildAiml_config).
  rewrite Hdoc. rewrite parsers_afterCall in Hlk.
  change (m_rules (afterCall normInput target parserName e it)) with (m_rules e).
  destruct (decide (parserName = t)) as [<-|Hne]; [|by apply Hok].
  injection Hlk as <-. destruct (Hok parserName it Hit) as [Hin Hfrom].
  split; [exact Hin|]. unfold parserAfter. by constructor.
Qed.

(** X15.  The partitions that a call matches on are never stale.  For every
    engine that a caller can have, constructed and then driven by any
    sequence of operations, each partition of the engine as [getResponse]
    finds it after its rebuild step is the any-target one or that of a target
    of a current rule, and its parser stems, through nothing but queries of
    the engine, from the parser of the document that [buildAiml] writes for
    the current rules, collaborators and topic mode. *)
Theorem partitions_never_stale (e : AimlEngine) :
  Reachable rid e ->
  forall t p, m_parsers (prepared e) !! t = Some p ->
    (t = ANY_USER \/ Exists (fun rule => t ∈ rule_target rule) (m_rules e))
    /\ ParserFrom (AIMLParser_new (buildAiml e t)) p.
Proof.
  set (fresh := fun e0 : AimlEngine =>
    forall t p, m_parsers e0 !! t = Some p ->
      (t = ANY_USER \/ Exists (fun rule => t ∈ rule_target rule) (m_rules e0))
      /\ ParserFrom (AIMLParser_new (buildAiml e0 t)) p).
  assert (Hfresh : forall e0, fresh e0 <->
     forall t p, m_parsers e0 !! t = Some p ->
       (t = ANY_USER \/ Exists (fun rule => t ∈ rule_target rule) (m_rules e0))
       /\ ParserFrom (AIMLParser_new (buildAiml e0 t)) p) by done.
  assert (Hinv : Reachable rid e -> m_dirty e = true \/ fresh e).
  { induction 1 as [pre lem post|op e Hreach IH].
    - right. intros t p Hlk. exfalso. revert Hlk. unfold AimlEngine_new3. cbn [m_parsers]. by rewrite lookup_empty.
    - destruct op as [rules|name value|s|l|s| |input target]; simpl;
        try (by left).
      + unfold setProperty.
        destruct (String.eqb name NLP_PROP_PREFER_CUR_TOPIC); [|exact IH].
        destruct (toBool value), (m_setTopics e) eqn:Hset; simpl;
          rewrite ?Hset; simpl; try (by left); exact IH.
      + right.
        destruct (getResponse_total rid input target e) as (out & ms & Hres).
        rewrite Hres.
        pose proof (fresh_prepared e fresh Hfresh IH) as Hprep.
        destruct (getAll_cases rid input target e)
          as [(_ & _ & Hcase)|[(it & H1 & _ & Hcase)|[(_ & _ & it & H2 & Hcase)
             |(it1 & it2 & H1 & Hne & H2 & _ & Hcase)]]];
          cbv zeta in Hcase; rewrite Hcase; cbn [snd].
        * exact Hprep.
        * exact (fresh_afterCall _ _ _ _ _ H1 Hprep).
        * exact (fresh_afterCall _ _ _ _ _ H2 Hprep).
        * refine (fresh_afterCall _ _ _ _ _ _ (fresh_afterCall _ _ _ _ _ H1 Hprep)).
          rewrite parsers_afterCall. by destruct (decide (target = ANY_USER)). }
  intros Hreach t p Hlk.
  pose proof (fresh_prepared e fresh Hfresh (Hinv Hreach) t p Hlk) as [Hin Hfrom].
  assert (Hdoc : buildAiml (prepared e) t = buildAiml e t).
  { unfold prepared. destruct (m_dirty e); [|done]. by apply buildAiml_config. }
  assert (Hrules : m_rules (prepared e) = m_rules e).
  { unfold prepared. by destruct (m_dirty e). }
  by rewrite Hdoc, Hrules in *.
Qed.

(** *** The virtual user *)

Lemma newCalls_any input e c :
  c ∈ newCalls rid input ANY_USER e -> call_parser c = ANY_USER.
Proof.
  destruct (newCalls_cases rid input ANY_USER e)
    as [(_ & _ & _ & Hn)|[(it & _ & _ & _ & Hn)|[(_ & Hne & _)
       |(it1 & it2 & _ & Hne & _)]]]; try done; rewrite Hn.
  - by intros ?%elem_of_nil.
  - by intros ->%list_elem_of_singleton.
Qed.

(** X16.  What the virtual user answers.  With an engine set and a draw that
    is an index of the evasives (or no evasives at all), [getResponse] of the
    virtual user returns: the response of the engine when the engine gives
    one; otherwise the drawn evasive, or the empty string when there are no
    evasives.  The engine is asked with no target: whoever [from] is, only
    the any-target partition receives a call, so rules addressed to [from]
    alone are never consulted.  The evasives are kept and the engine is left
    as its own [getResponse] leaves it. *)
Theorem virtual_user_reply (draw : nat) (input from : string)
                           (u : DefaultVirtualUser) (engine : AimlEngine) :
  vu_engine u = Some engine ->
  (draw < length (vu_evasives u))%nat \/ vu_evasives u = [] ->
  exists out matches engine' reply,
    getResponse rid input ANY_USER engine = Some (out, matches, engine')
    /\ vu_getResponse rid draw input from u
       = Some (reply, mkDefaultVirtualUser (Some engine') (vu_evasives u))
    /\ (out <> "" -> reply = out)
    /\ (out = "" ->
          vu_evasives u !! draw = Some reply
          \/ (vu_evasives u = [] /\ reply = ""))
    /\ (forall c, c ∈ newCalls rid input ANY_USER engine ->
          call_parser c = ANY_USER).
Proof.
  intros Hengine Hdraw.
  destruct (getResponse_shape input ANY_USER engine)
    as (out & matches & Hres & Hshape).
  unfold vu_getResponse, getResponseAny. rewrite Hengine, Hres.
  destruct Hshape as [[-> ->]|[Hne [pair ->]]].
  - simpl. destruct Hdraw as [Hlt|Hnil].
    + destruct (lookup_lt_is_Some_2 _ _ Hlt) as [evasive Hev].
      rewrite Hev.
      assert (Hpos : (0 <? length (vu_evasives u))%nat = true)
        by (apply Nat.ltb_lt; lia).
      rewrite Hpos. eexists _, _, _, _. split; [reflexivity|].
      split; [reflexivity|]. split; [done|].
      split; [by left|]. apply newCalls_any.
    + rewrite Hnil. simpl. eexists _, _, _, _. split; [reflexivity|].
      split; [reflexivity|]. split; [done|].
      split; [by right|]. apply newCalls_any.
  - assert (Hempty : isEmpty out = false) by (by destruct out).
    rewrite Hempty. simpl. eexists _, _, _, _. split; [reflexivity|].
    split; [reflexivity|]. split; [done|].
    split; [done|]. apply newCalls_any.
Qed.

(** *** One partner and the others *)

Lemma topicOf_afterCall normInput target parserName e it other :
  other <> target ->
  topicOf (afterCall normInput target parserName e it) other = topicOf e other.
Proof.
  intros Hne. unfold topicOf. simpl. by rewrite lookup_insert_ne.
Qed.

(** X17.  A call on behalf of one partner leaves the others alone: the topic
    tracked for any other partner is what it was, and so is the partition of
    any other one, the any-target partition apart, which all partners
    share. *)
Theorem partners_isolated (input target other : string) (e : AimlEngine) :
  other <> target ->
  let e' := (_getAllResponses rid input target [] e).2 in
  topicOf e' other = topicOf e other
  /\ (other <> ANY_USER ->
      m_parsers e' !! other = m_parsers (prepared e) !! other).
Proof.
  intros Hother e'. subst e'. rewrite <- (topicOf_prepared e other).
  destruct (getAll_cases rid input target e)
    as [(_ & _ & Hcase)|[(it & H1 & _ & Hcase)|[(_ & _ & it & H2 & Hcase)
       |(it1 & it2 & H1 & Hne & H2 & _ & Hcase)]]];
    cbv zeta in Hcase; rewrite Hcase; cbn [snd].
  - done.
  - split; [by apply topicOf_afterCall|]. intros _.
    rewrite parsers_afterCall. by destruct (decide (target = other)).
  - split; [by apply topicOf_afterCall|]. intros Hany.
    rewrite parsers_afterCall. by destruct (decide (ANY_USER = other)).
  - split; [by rewrite !topicOf_afterCall|]. intros Hany.
    rewrite !parsers_afterCall.
    destruct (decide (ANY_USER = other)); [done|].
    by destruct (decide (target = other)).
Qed.

(** *** Rules that leave no trace in a document *)

Lemma concat_strings_app (l1 l2 : list string) :
  concat_strings (l1 ++ l2)%list = concat_strings l1 +:+ concat_strings l2.
Proof.
  induction l1 as [|x l1 IH]; [reflexivity|].
  change (x +:+ concat_strings (l1 ++ l2)%list
          = (x +:+ concat_strings l1) +:+ concat_strings l2).
  by rewrite IH, append_assoc.
Qed.

(** X18.  A rule without inputs, and a rule that the target does not select,
    leave no trace in the document of that target: the document is that of
    the rule set without the rule.  The documents of two rule sets put end
    to end hold the entries of the first, then those of the second. *)
Theorem document_by_rule (e : AimlEngine) (t : string) :
  (forall rs1 rs2,
     buildAiml (with_rules (rs1 ++ rs2)%list e) t
     = aimlHeader
       +:+ concat_strings (ruleEntries e <$> List.filter (selectsRule t) rs1)
       +:+ concat_strings (ruleEntries e <$> List.filter (selectsRule t) rs2)
       +:+ "</aiml>")
  /\ (forall rs1 rule rs2,
        rule_input rule = [] \/ selectsRule t rule = false ->
        buildAiml (with_rules (rs1 ++ rule :: rs2)%list e) t
        = buildAiml (with_rules (rs1 ++ rs2)%list e) t).
Proof.
  assert (Hdoc : forall rs,
    buildAiml (with_rules rs e) t
    = aimlHeader
      +:+ concat_strings (ruleEntries e <$> List.filter (selectsRule t) rs)
      +:+ "</aiml>").
  { intros rs. by rewrite buildAiml_entries. }
  split.
  - intros rs1 rs2.
    by rewrite Hdoc, List.filter_app, fmap_app, concat_strings_app, append_assoc.
  - intros rs1 rule rs2 Hrule. rewrite !Hdoc. do 2 f_equal.
    rewrite !List.filter_app, !fmap_app, !concat_strings_app. f_equal.
    cbn [List.filter]. destruct Hrule as [Hin|Hsel].
    + destruct (selectsRule t rule); [|done].
      change (ruleEntries e rule
              +:+ concat_strings
                    (ruleEntries e <$> List.filter (selectsRule t) rs2)
              = concat_strings
                  (ruleEntries e <$> List.filter (selectsRule t) rs2)).
      unfold ruleEntries at 1. by rewrite Hin.
    + by rewrite Hsel.
Qed.
End FurtherEngineFacts.

(** ** The further properties on the reference backend *)

(** With an input index of 4097 the pair of rule 6 decodes as rule 7,
    input 1. *)
Lemma index_bits_spill_into_rule_id_witness :
  getRuleId RuleIdUnsigned (getCategoryId 6 4097) = 7
  /\ getInputNumber (getCategoryId 6 4097) = 1.
Proof.
  destruct (index_bits_spill_into_rule_id RuleIdUnsigned 6 4097) as [Hr Hk];
    [lia|lia|].
  rewrite Hr, Hk. split; reflexivity.
Defined.

(** The category id [-1], which no rule of the engine gets, survives the
    round trip when [RuleId] is signed. *)
Lemma decode_encode_roundtrip_witness :
  getRuleId RuleIdSigned (-1) = -1 /\ getInputNumber (-1) = 4095
  /\ getCategoryId (getRuleId RuleIdSigned (-1)) (getInputNumber (-1)) = -1.
Proof.
  split; [reflexivity|]. split; [reflexivity|].
  apply decode_encode_roundtrip; [lia|by left].
Defined.

Lemma escape_injective_witness :
  escape "R&D" = "R&amp;D" /\ escape "R&D" = escape "R&D" /\ "R&D" = "R&D".
Proof.
  split; [reflexivity|]. split; [reflexivity|].
  apply escape_injective. reflexivity.
Defined.

(** An ampersand in a rule input: the pattern keeps it, escaped, while the
    input of a user loses it, so the two texts differ. *)
Lemma pattern_agrees_with_input_witness :
  (exists rest,
     buildCategory (engineOf []) ruleHello 0 " Hello "
     = "<category><id>" +:+ qnumber (getCategoryId (rule_id ruleHello) 0)
       +:+ "</id><pattern>" +:+ normInputOf (engineOf []) (trimmed " Hello ")
       +:+ "</pattern>" +:+ rest)
  /\ normInputOf (engineOf []) (trimmed " Hello ") = "Hello"
  /\ escape (normalize (engineOf []) (trimmed "R&D")) = "R&amp;D"
  /\ normInputOf (engineOf []) "R&D" = "RD"
  /\ forall input,
       escape (normalize (engineOf []) (trimmed "R&D"))
       <> normInputOf (engineOf []) input.
Proof.
  split.
  { apply (proj1 (pattern_agrees_with_input (engineOf []) ruleHello 0 " Hello ")).
    reflexivity. }
  split; [reflexivity|]. split; [reflexivity|]. split; [reflexivity|].
  apply (proj2 (pattern_agrees_with_input (engineOf []) ruleHello 0 "R&D")).
  reflexivity.
Defined.

(** An engine that matched under a pre-sanitizer that maps every text to
    one word, so that it answered anything, and a new engine with the same
    rules: once the pre-sanitizer of both is reset, they answer alike. *)
Lemma collaborator_replacement_witness :
  getResponse_seq RuleIdUnsigned [("Hello", ANY_USER); ("anything", ANY_USER)]
    (setPreSanitizer None
       (prepared (setPreSanitizer (Some (fun _ => "zzz")) (engineOf [ruleHello]))))
  = getResponse_seq RuleIdUnsigned [("Hello", ANY_USER); ("anything", ANY_USER)]
      (setPreSanitizer None (engineOf [ruleHello]))
  /\ getResponse_seq RuleIdUnsigned [("Hello", ANY_USER); ("anything", ANY_USER)]
       (setPreSanitizer None (engineOf [ruleHello]))
     = [Some ("Hi", [(2, 0)]); Some ("", [])]
  /\ getResponse_seq RuleIdUnsigned [("Hello", ANY_USER); ("anything", ANY_USER)]
       (prepared (setPreSanitizer (Some (fun _ => "zzz")) (engineOf [ruleHello])))
     = [Some ("Hi", [(2, 0)]); Some ("Hi", [(2, 0)])].
Proof.
  split; [|split; vm_compute; reflexivity].
  apply (proj1 (collaborator_replacement RuleIdUnsigned None
                  (prepared (setPreSanitizer (Some (fun _ => "zzz"))
                               (engineOf [ruleHello])))
                  (engineOf [ruleHello])
                  [("Hello", ANY_USER); ("anything", ANY_USER)]
                  eq_refl eq_refl eq_refl)); reflexivity.
Defined.

(** The topic that a sentence about cars left is pushed into the backend on
    the first call after the rule set is replaced. *)
Lemma topic_survives_reconfiguration_witness :
  topicOf afterCars ANY_USER = "cars"
  /\ exists c,
       last (newCalls RuleIdUnsigned "Hello" ANY_USER
               (runOp RuleIdUnsigned (OpSetRules [ruleHello]) afterCars))
       = Some c
       /\ call_topic c = topicOf afterCars ANY_USER.
Proof.
  split; [vm_compute; reflexivity|].
  destruct (last (newCalls RuleIdUnsigned "Hello" ANY_USER
                    (runOp RuleIdUnsigned (OpSetRules [ruleHello]) afterCars)))
    as [c|] eqn:Hlast; [|by vm_compute in Hlast].
  exists c. split; [reflexivity|].
  by apply (topic_survives_reconfiguration RuleIdUnsigned
              (OpSetRules [ruleHello]) afterCars "Hello" ANY_USER).
Defined.

(** An engine given two rules and then asked on behalf of bob: the
    partition of bob stems from the document that the engine writes for bob
    now. *)
Lemma partitions_never_stale_witness :
  let e := runOp RuleIdUnsigned (OpGetResponse "Hello" "bob")
             (runOp RuleIdUnsigned (OpSetRules [ruleBob; ruleBye])
                (AimlEngine_new (backend := ReferenceBackend))) in
  is_Some (m_parsers (prepared e) !! "bob")
  /\ forall p, m_parsers (prepared e) !! "bob" = Some p ->
       ("bob" = ANY_USER
        \/ Exists (fun rule => "bob" ∈ rule_target rule) (m_rules e))
       /\ ParserFrom (AIMLParser_new (buildAiml e "bob")) p.
Proof.
  intros e. split; [vm_compute; eauto|].
  apply (partitions_never_stale RuleIdUnsigned e).
  apply Reachable_step, Reachable_step, Reachable_new.
Defined.

(** A virtual user whose engine has a rule for bob alone: asked by bob, it
    answers with the drawn evasive, while the engine asked on behalf of bob
    has an answer. *)
Lemma virtual_user_reply_witness :
  let engine := engineOf [ruleBob; ruleBye] in
  let u := mkDefaultVirtualUser (Some engine) ["Sorry?"; "Pardon?"] in
  (exists out matches engine' reply,
     getResponse RuleIdUnsigned "Hello" ANY_USER engine
     = Some (out, matches, engine')
     /\ vu_getResponse RuleIdUnsigned 1 "Hello" "bob" u
        = Some (reply, mkDefaultVirtualUser (Some engine') (vu_evasives u))
     /\ (out <> "" -> reply = out)
     /\ (out = "" ->
           vu_evasives u !! 1%nat = Some reply
           \/ (vu_evasives u = [] /\ reply = ""))
     /\ (forall c, c ∈ newCalls RuleIdUnsigned "Hello" ANY_USER engine ->
           call_parser c = ANY_USER))
  /\ fst <$> vu_getResponse RuleIdUnsigned 1 "Hello" "bob" u = Some "Pardon?"
  /\ outcome (getResponse RuleIdUnsigned "Hello" "bob" engine)
     = Some ("Hi Bob", [(3, 0)]).
Proof.
  intros engine u. split; [|split; vm_compute; reflexivity].
  apply (virtual_user_reply RuleIdUnsigned 1 "Hello" "bob" u engine);
    [reflexivity|left; simpl; lia].
Defined.

(** A sentence about cars with no target sets the topic tracked for the
    any-target partner; the topic and the partition of bob stay. *)
Lemma partners_isolated_witness :
  let e := engineOf [ruleBob; ruleCars] in
  let e' := (_getAllResponses RuleIdUnsigned "I like cars" ANY_USER [] e).2 in
  topicOf e' ANY_USER = "cars"
  /\ topicOf e' "bob" = topicOf e "bob"
  /\ m_parsers e' !! "bob" = m_parsers (prepared e) !! "bob".
Proof.
  intros e e'. split; [vm_compute; reflexivity|].
  destruct (partners_isolated RuleIdUnsigned "I like cars" ANY_USER "bob" e)
    as [Htopic Hparser]; [done|].
  split; [exact Htopic|]. by apply Hparser.
Defined.

(** In the document of bob, the rule for everybody leaves no trace. *)
Lemma document_by_rule_witness :
  selectsRule "bob" ruleBye = false
  /\ buildAiml (with_rules [ruleBob; ruleBye] (engineOf [])) "bob"
     = buildAiml (with_rules [ruleBob] (engineOf [])) "bob".
Proof.
  split; [reflexivity|].
  apply (proj2 (document_by_rule (engineOf []) "bob") [ruleBob] ruleBye []).
  by right.
Defined.
